(** * Strict Effect API client: response classification, transport and URL
      construction, verified over a shallow embedding.

    The development follows the layout of the repository:
    - host primitives the code calls ([String.prototype.includes],
      [String.prototype.replace], [encodeURIComponent], [URLSearchParams],
      [Headers], [JSON.parse]);
    - [core/strict-types.ts]: the boundary errors and the type-level filters
      [SuccessVariants] / [HttpErrorVariants];
    - [shell/strict-client.ts]: [createDispatcher], [parseJSON],
      [executeRequest] and the client facade [createStrictClient]; the
      [executeRequest] of packages/app, over the platform [HttpClient], is
      followed up to the defects that a throw in the body of [Effect.gen]
      makes;
    - [generated/decoders.ts], [generated/dispatch.ts]: the petstore
      dispatchers, in their [switch] form and in their [Match] form;
    - [scripts/gen-strict-api.ts]: the meaning of the dispatcher the generator
      emits for an arbitrary table of responses. *)

From Stdlib Require Import ZArith Ascii String.
From stdpp Require Import base option list gmap strings pretty.

Local Open Scope Z_scope.
Local Set Warnings "-register-all".

(** ** Host primitives *)

(** JavaScript strings are kept as their UTF-8 bytes (well-formed strings:
    a lone surrogate, on which [encodeURIComponent] throws, has no such
    form). *)

Definition isUpperAscii (c : ascii) : bool :=
  let n := nat_of_ascii c in (65 <=? n)%nat && (n <=? 90)%nat.

Definition toLowerAscii (c : ascii) : ascii :=
  if isUpperAscii c then ascii_of_nat (nat_of_ascii c + 32) else c.

(** Byte lower-casing, the normalisation [Headers] applies to header names. *)
Fixpoint toLowerCase (s : string) : string :=
  match s with
  | EmptyString => EmptyString
  | String c s' => String (toLowerAscii c) (toLowerCase s')
  end.

Fixpoint startsWith (s pat : string) {struct pat} : bool :=
  match pat, s with
  | EmptyString, _ => true
  | String _ _, EmptyString => false
  | String p pat', String c s' => if Ascii.eqb p c then startsWith s' pat' else false
  end.

(** [String.prototype.indexOf]: position of the first occurrence. *)
Fixpoint indexOf (s pat : string) : option nat :=
  if startsWith s pat then Some 0%nat
  else match s with
       | EmptyString => None
       | String _ s' => S <$> indexOf s' pat
       end.

(** [String.prototype.includes]: [pat] occurs in [s], byte for byte. *)
Definition includes (s pat : string) : bool :=
  match indexOf s pat with Some _ => true | None => false end.

Fixpoint take_string (n : nat) (s : string) : string :=
  match n, s with
  | S n', String c s' => String c (take_string n' s')
  | _, _ => EmptyString
  end.

Fixpoint drop_string (n : nat) (s : string) : string :=
  match n, s with
  | S n', String _ s' => drop_string n' s'
  | _, _ => s
  end.

(** The replacement-text expansion of [String.prototype.replace] for a string
    pattern (no capture groups): [$$], [$&], [$`] and [$'] are special. *)
Fixpoint getSubstitution (matched before after rep : string) : string :=
  match rep with
  | EmptyString => EmptyString
  | String c r =>
      if Ascii.eqb c "$" then
        match r with
        | String d r' =>
            if Ascii.eqb d "$" then String "$" (getSubstitution matched before after r')
            else if Ascii.eqb d "&" then matched +:+ getSubstitution matched before after r'
            else if Ascii.eqb d "`" then before +:+ getSubstitution matched before after r'
            else if Ascii.eqb d "'" then after +:+ getSubstitution matched before after r'
            else String c (getSubstitution matched before after r)
        | EmptyString => String c EmptyString
        end
      else String c (getSubstitution matched before after r)
  end.

(** [s.replace(pat, rep)] with a string pattern: only the first occurrence of
    [pat] is replaced; without an occurrence [s] is returned. *)
Definition replace (s pat rep : string) : string :=
  match indexOf s pat with
  | None => s
  | Some i =>
      let before := take_string i s in
      let after := drop_string (i + String.length pat) s in
      before +:+ getSubstitution pat before after rep +:+ after
  end.

Definition hexDigit (n : nat) : ascii :=
  if (n <? 10)%nat then ascii_of_nat (48 + n) else ascii_of_nat (55 + n).

(** [%XX], upper-case hexadecimal. *)
Definition percentByte (c : ascii) (rest : string) : string :=
  let n := nat_of_ascii c in
  String "%" (String (hexDigit (n / 16)) (String (hexDigit (n mod 16)) rest)).

Definition isAlphaNum (c : ascii) : bool :=
  let n := nat_of_ascii c in
  ((48 <=? n) && (n <=? 57) || (65 <=? n) && (n <=? 90) || (97 <=? n) && (n <=? 122))%nat.

Definition isOneOf (chars : string) (c : ascii) : bool :=
  existsb (Ascii.eqb c) (list_ascii_of_string chars).

(** The characters [encodeURIComponent] leaves alone. *)
Definition uriUnreserved (c : ascii) : bool :=
  isAlphaNum c || isOneOf "-_.!~*'()" c.

(** [encodeURIComponent]: every byte outside the unreserved set becomes a
    [%XX] triplet. *)
Fixpoint encodeURIComponent (s : string) : string :=
  match s with
  | EmptyString => EmptyString
  | String c s' =>
      if uriUnreserved c then String c (encodeURIComponent s')
      else percentByte c (encodeURIComponent s')
  end.

(** The application/x-www-form-urlencoded byte serialiser used by
    [URLSearchParams.prototype.toString]. *)
Fixpoint formUrlEncode (s : string) : string :=
  match s with
  | EmptyString => EmptyString
  | String c s' =>
      if Ascii.eqb c " " then String "+" (formUrlEncode s')
      else if isAlphaNum c || isOneOf "*-._" c then String c (formUrlEncode s')
      else percentByte c (formUrlEncode s')
  end.

(** A [URLSearchParams] object: its list of name-value pairs. *)
Definition URLSearchParams := list (string * string).

Definition URLSearchParams_append (params : URLSearchParams) (k v : string)
  : URLSearchParams := params ++ [(k, v)].

Fixpoint URLSearchParams_toString (params : URLSearchParams) : string :=
  match params with
  | [] => ""
  | [(k, v)] => formUrlEncode k +:+ "=" +:+ formUrlEncode v
  | (k, v) :: rest =>
      formUrlEncode k +:+ "=" +:+ formUrlEncode v +:+ "&" +:+ URLSearchParams_toString rest
  end.

(** A value of type [string | number]; numbers are the integers, whose
    [String(...)] is their decimal notation. *)
Inductive StringOrNumber :=
| Str (s : string)
| Num (n : Z).

Definition String_of (v : StringOrNumber) : string :=
  match v with
  | Str s => s
  | Num n => pretty n
  end.

(** An [Error] object. *)
Record JsError := mkError { errName : string; errMessage : string }.

(** A thrown value or a rejection reason: an [Error] instance, or any other
    value, of which only the [String(...)] form is observed. *)
Inductive Thrown :=
| ThrownError (e : JsError)
| ThrownOther (asString : string).

(** [error instanceof Error ? error : new Error(String(error))] *)
Definition toError (error : Thrown) : JsError :=
  match error with
  | ThrownError e => e
  | ThrownOther s => mkError "Error" s
  end.

(** How a call completes: with a value, or by throwing. The same shape is
    used for a settled promise (fulfilled, or rejected with a reason). *)
Inductive Completion (A : Type) :=
| Normal (a : A)
| Throw (error : Thrown).
Arguments Normal {A} a.
Arguments Throw {A} error.

Definition Completion_bind {A B} (c : Completion A) (k : A -> Completion B)
  : Completion B :=
  match c with
  | Normal a => k a
  | Throw e => Throw e
  end.

(** A [TypeError] of the host; its message is the host's own. *)
Definition TypeError (message : string) : Thrown :=
  ThrownError (mkError "TypeError" message).

(** A [Headers] object: header names are stored lower-cased, in order. *)
Definition Headers := list (string * string).

Fixpoint joinWith (sep : string) (l : list string) : string :=
  match l with
  | [] => ""
  | [x] => x
  | x :: rest => x +:+ sep +:+ joinWith sep rest
  end.

(** [headers.get(name)]: the values of every header whose name matches
    [name] case-insensitively, joined by a comma and a space; [null] when
    there is none. *)
Definition Headers_get (h : Headers) (name : string) : option string :=
  let vs := (filter (fun kv => toLowerCase kv.1 = toLowerCase name) h).*2 in
  match vs with
  | [] => None
  | _ => Some (joinWith ", " vs)
  end.

(** A header name: a non-empty token. *)
Definition isTokenChar (c : ascii) : bool :=
  isAlphaNum c || isOneOf "!#$%&'*+-.^_`|~" c.

Definition validHeaderName (name : string) : bool :=
  negb (bool_decide (name = "")) && forallb isTokenChar (list_ascii_of_string name).

(** HTTP whitespace: space, tab, LF and CR. *)
Definition isHeaderBlank (c : ascii) : bool :=
  let n := nat_of_ascii c in ((n =? 32) || (n =? 9) || (n =? 10) || (n =? 13))%nat.

(** Normalisation of a header value: HTTP whitespace is dropped at both
    ends. *)
Fixpoint stripLeading (s : string) : string :=
  match s with
  | EmptyString => EmptyString
  | String c s' => if isHeaderBlank c then stripLeading s' else s
  end.

Fixpoint stripTrailing (s : string) : string :=
  match s with
  | EmptyString => EmptyString
  | String c s' =>
      match stripTrailing s' with
      | EmptyString => if isHeaderBlank c then EmptyString else String c EmptyString
      | kept => String c kept
      end
  end.

Definition normalizeHeaderValue (value : string) : string :=
  stripTrailing (stripLeading value).

(** A byte of a header value: no NUL, CR or LF, and, the value being a
    [ByteString], no character above U+00FF (in UTF-8, no byte from C4 up). *)
Definition isHeaderValueByte (c : ascii) : bool :=
  let n := nat_of_ascii c in
  (negb ((n =? 0) || (n =? 10) || (n =? 13)) && (n <? 196))%nat.



(** The header list after a [set]: the first header of that name takes the
    value and the others are removed; a new name is appended. *)
Fixpoint Headers_setFirst (lname value : string) (h : Headers) : option Headers :=
  match h with
  | [] => None
  | kv :: h' =>
      if bool_decide (kv.1 = lname)
      then Some ((lname, value) :: filter (fun kv' => kv'.1 ≠ lname) h')
      else (kv ::.) <$> Headers_setFirst lname value h'
  end.

Definition Headers_store (h : Headers) (name value : string) : Headers :=
  let lname := toLowerCase name in
  default (h ++ [(lname, value)]) (Headers_setFirst lname value h).

(** [headers.set(name, value)]: the value is normalised; a name that is no
    token, or a value that is no header value, is refused with a
    [TypeError]; otherwise the header is stored. *)
Definition Headers_set (h : Headers) (name value : string) : Completion Headers :=
  let value := normalizeHeaderValue value in
  if negb (validHeaderName name) then Throw (TypeError "Invalid header name")
  else if negb (forallb isHeaderValueByte (list_ascii_of_string value))
  then Throw (TypeError "Invalid header value")
  else Normal (Headers_store h name value).

(** ** JSON values and [JSON.parse] *)

(** [type Json = null | boolean | number | string | ReadonlyArray<Json> |
    { readonly [k: string]: Json }]. A number is kept as the literal that
    denotes it, an object as its members in textual order. *)
Inductive Json :=
| JNull
| JBool (b : bool)
| JNumber (literal : string)
| JString (s : string)
| JArray (items : list Json)
| JObject (members : list (string * Json)).

(** The host's [JSON.parse] is a parameter of the development; the module
    below is a reference reader of the JSON grammar (ECMA-404) on which the
    dispatchers are evaluated. *)
Module JSON.

Definition dquote : ascii := "034".

Definition isWs (c : ascii) : bool :=
  let n := nat_of_ascii c in
  ((n =? 32) || (n =? 9) || (n =? 10) || (n =? 13))%nat.

Definition isDigit (c : ascii) : bool :=
  let n := nat_of_ascii c in ((48 <=? n) && (n <=? 57))%nat.

Definition hexValue (c : ascii) : option nat :=
  let n := nat_of_ascii c in
  if ((48 <=? n) && (n <=? 57))%nat then Some (n - 48)%nat
  else if ((65 <=? n) && (n <=? 70))%nat then Some (n - 55)%nat
  else if ((97 <=? n) && (n <=? 102))%nat then Some (n - 87)%nat
  else None.

Fixpoint skipWs (s : string) : string :=
  match s with
  | String c s' => if isWs c then skipWs s' else s
  | EmptyString => s
  end.

Definition expectLiteral (lit s : string) : option string :=
  if startsWith s lit then Some (drop_string (String.length lit) s) else None.

Fixpoint takeDigits (s : string) : string * string :=
  match s with
  | String c s' =>
      if isDigit c then let '(ds, r) := takeDigits s' in (String c ds, r)
      else (EmptyString, s)
  | EmptyString => (EmptyString, s)
  end.

Definition someDigits (s : string) : option (string * string) :=
  let '(ds, r) := takeDigits s in
  if bool_decide (ds = "") then None else Some (ds, r).

(** An optional minus sign, an integer part without a leading zero, an
    optional fraction and an optional exponent. *)
Definition parseNumber (s : string) : option (string * string) :=
  let '(sign, s1) :=
    match s with
    | String c r => if Ascii.eqb c "-" then ("-", r) else ("", s)
    | EmptyString => ("", s)
    end in
  '(int, s2) ← match s1 with
               | String c r => if Ascii.eqb c "0" then Some ("0", r) else someDigits s1
               | EmptyString => None
               end;
  '(frac, s3) ← match s2 with
                | String c r =>
                    if Ascii.eqb c "."
                    then '(ds, r') ← someDigits r; Some ("." +:+ ds, r')
                    else Some ("", s2)
                | EmptyString => Some ("", s2)
                end;
  '(exp, s4) ← match s3 with
               | String c r =>
                   if Ascii.eqb c "e" || Ascii.eqb c "E"
                   then
                     let '(esign, r1) :=
                       match r with
                       | String d r' =>
                           if Ascii.eqb d "+" || Ascii.eqb d "-"
                           then (String d "", r') else ("", r)
                       | EmptyString => ("", r)
                       end in
                     '(ds, r2) ← someDigits r1; Some (String c esign +:+ ds, r2)
                   else Some ("", s3)
               | EmptyString => Some ("", s3)
               end;
  Some (sign +:+ int +:+ frac +:+ exp, s4).

(** UTF-8 bytes of the UTF-16 code unit that a four-digit hexadecimal
    escape gives. *)
Definition utf8 (n : nat) (rest : string) : string :=
  if (n <? 128)%nat then String (ascii_of_nat n) rest
  else if (n <? 2048)%nat
  then String (ascii_of_nat (192 + n / 64))
         (String (ascii_of_nat (128 + n mod 64)) rest)
  else String (ascii_of_nat (224 + n / 4096))
         (String (ascii_of_nat (128 + (n / 64) mod 64))
            (String (ascii_of_nat (128 + n mod 64)) rest)).

Definition unescape (c : ascii) : option ascii :=
  if Ascii.eqb c dquote || Ascii.eqb c "\" || Ascii.eqb c "/" then Some c
  else if Ascii.eqb c "b" then Some (ascii_of_nat 8)
  else if Ascii.eqb c "f" then Some (ascii_of_nat 12)
  else if Ascii.eqb c "n" then Some (ascii_of_nat 10)
  else if Ascii.eqb c "r" then Some (ascii_of_nat 13)
  else if Ascii.eqb c "t" then Some (ascii_of_nat 9)
  else None.

(** The characters of a string literal after its opening quote, up to and
    including the closing quote. *)
Fixpoint parseStringBody (s : string) : option (string * string) :=
  match s with
  | EmptyString => None
  | String c r =>
      if Ascii.eqb c dquote then Some (EmptyString, r)
      else if Ascii.eqb c "\" then
        match r with
        | String e r1 =>
            if Ascii.eqb e "u" then
              match r1 with
              | String h1 (String h2 (String h3 (String h4 r2))) =>
                  a ← hexValue h1; b ← hexValue h2; c' ← hexValue h3; d ← hexValue h4;
                  '(str, rest) ← parseStringBody r2;
                  Some (utf8 (((a * 16 + b) * 16 + c') * 16 + d) str, rest)
              | _ => None
              end
            else
              u ← unescape e;
              '(str, rest) ← parseStringBody r1;
              Some (String u str, rest)
        | EmptyString => None
        end
      else if (nat_of_ascii c <? 32)%nat then None
      else '(str, rest) ← parseStringBody r; Some (String c str, rest)
  end.

Fixpoint parseValue (fuel : nat) (s : string) : option (Json * string) :=
  match fuel with
  | O => None
  | S fuel' =>
      match skipWs s with
      | EmptyString => None
      | String c r as s0 =>
          if Ascii.eqb c "n" then (JNull,.) <$> expectLiteral "null" s0
          else if Ascii.eqb c "t" then (JBool true,.) <$> expectLiteral "true" s0
          else if Ascii.eqb c "f" then (JBool false,.) <$> expectLiteral "false" s0
          else if Ascii.eqb c dquote then
            '(str, r') ← parseStringBody r; Some (JString str, r')
          else if Ascii.eqb c "[" then
            match skipWs r with
            | String d r' as r0 =>
                if Ascii.eqb d "]" then Some (JArray [], r')
                else '(items, r'') ← parseElements fuel' r0; Some (JArray items, r'')
            | EmptyString => None
            end
          else if Ascii.eqb c "{" then
            match skipWs r with
            | String d r' as r0 =>
                if Ascii.eqb d "}" then Some (JObject [], r')
                else '(members, r'') ← parseMembers fuel' r0; Some (JObject members, r'')
            | EmptyString => None
            end
          else '(lit, r') ← parseNumber s0; Some (JNumber lit, r')
      end
  end
with parseElements (fuel : nat) (s : string) : option (list Json * string) :=
  match fuel with
  | O => None
  | S fuel' =>
      '(v, r) ← parseValue fuel' s;
      match skipWs r with
      | String c r' =>
          if Ascii.eqb c "," then
            '(vs, r'') ← parseElements fuel' r'; Some (v :: vs, r'')
          else if Ascii.eqb c "]" then Some ([v], r')
          else None
      | EmptyString => None
      end
  end
with parseMembers (fuel : nat) (s : string) : option (list (string * Json) * string) :=
  match fuel with
  | O => None
  | S fuel' =>
      match skipWs s with
      | String q r =>
          if Ascii.eqb q dquote then
            '(k, r1) ← parseStringBody r;
            match skipWs r1 with
            | String c r2 =>
                if Ascii.eqb c ":" then
                  '(v, r3) ← parseValue fuel' r2;
                  match skipWs r3 with
                  | String d r4 =>
                      if Ascii.eqb d "," then
                        '(ms, r5) ← parseMembers fuel' r4; Some ((k, v) :: ms, r5)
                      else if Ascii.eqb d "}" then Some ([(k, v)], r4)
                      else None
                  | EmptyString => None
                  end
                else None
            | EmptyString => None
            end
          else None
      | EmptyString => None
      end
  end.

Definition SyntaxError : Thrown :=
  ThrownError (mkError "SyntaxError" "Unexpected token in JSON").

(** [JSON.parse(text)]: the value denoted by the whole text, or a thrown
    [SyntaxError]. The fuel bounds the nesting of the calls of the reader and
    is taken above the length of the text. *)
Definition parse (text : string) : Completion Json :=
  match parseValue (2 * String.length text + 2) text with
  | Some (v, r) => if bool_decide (skipWs r = "") then Normal v else Throw SyntaxError
  | None => Throw SyntaxError
  end.

End JSON.

(** JSON texts are written below with ['] where the text has a double
    quote. *)
Fixpoint jsonText (s : string) : string :=
  match s with
  | EmptyString => EmptyString
  | String c s' => String (if Ascii.eqb c "'" then JSON.dquote else c) (jsonText s')
  end.

(** ** The [Effect] type and its combinators *)

(** [Effect.Effect<A, E>]: a computation that succeeds with an [A] or fails
    with a typed [E]. *)
Inductive Effect (A E : Type) :=
| Succeed (a : A)
| Fail (e : E).
Arguments Succeed {A E} a.
Arguments Fail {A E} e.

Definition Effect_flatMap {A B E} (m : Effect A E) (k : A -> Effect B E) : Effect B E :=
  match m with
  | Succeed a => k a
  | Fail e => Fail e
  end.

Definition Effect_mapError {A E E'} (m : Effect A E) (f : E -> E') : Effect A E' :=
  match m with
  | Succeed a => Succeed a
  | Fail e => Fail (f e)
  end.

(** [Effect.try({ try, catch })] and [Effect.tryPromise({ try, catch })]:
    whatever [try] throws, or rejects with, goes through [catch] into the
    failure channel. *)
Definition Effect_try {A E} (try : Completion A) (catch : Thrown -> E) : Effect A E :=
  match try with
  | Normal a => Succeed a
  | Throw error => Fail (catch error)
  end.

Definition Effect_tryPromise {A E} (try : Completion A) (catch : Thrown -> E)
  : Effect A E := Effect_try try catch.

(** [const x = yield* m] inside [Effect.gen]. *)
Notation "'let*' x ':=' m 'in' k" := (Effect_flatMap m (fun x => k))
  (at level 10, x name, m at level 100, k at level 200).

(** How an effect ends when defects are counted: besides a value and a typed
    failure, it may die of a defect, which is outside the failure channel.
    An exception thrown by the body of [Effect.gen] is such a defect. *)
Inductive Exit (A E : Type) :=
| Success (a : A)
| Failure (e : E)
| Die (defect : Thrown).
Arguments Success {A E} a.
Arguments Failure {A E} e.
Arguments Die {A E} defect.

Definition Exit_flatMap {A B E} (m : Exit A E) (k : A -> Exit B E) : Exit B E :=
  match m with
  | Success a => k a
  | Failure e => Failure e
  | Die defect => Die defect
  end.

(** [Effect.mapError] maps the failure channel and leaves a defect as it is. *)
Definition Exit_mapError {A E E'} (m : Exit A E) (f : E -> E') : Exit A E' :=
  match m with
  | Success a => Success a
  | Failure e => Failure (f e)
  | Die defect => Die defect
  end.

(** An effect without defects, as it ends. *)
Definition Exit_ofEffect {A E} (m : Effect A E) : Exit A E :=
  match m with
  | Succeed a => Success a
  | Fail e => Failure e
  end.

(** A synchronous step in the body of [Effect.gen]: what it throws is a
    defect. *)
Definition Exit_sync {A E} (step : Completion A) : Exit A E :=
  match step with
  | Normal a => Success a
  | Throw error => Die error
  end.

Notation "'let!' x ':=' m 'in' k" := (Exit_flatMap m (fun x => k))
  (at level 10, x name, m at level 100, k at level 200).

Notation "'await' x ':=' m 'in' k" := (Completion_bind m (fun x => k))
  (at level 10, x name, m at level 100, k at level 200).

(** [x.pipe(f, g)] *)
Notation "x |> f" := (f x) (at level 50, left associativity, only parsing).

(** [Match.value(v).pipe(Match.when(p, f), ..., Match.orElse(g))]: the value
    travels on the left until a pattern takes it. *)
Definition Match_value {R} (v : Z) : Z + R := inl v.

Definition Match_when {R} (pattern : Z) (f : unit -> R) (m : Z + R) : Z + R :=
  match m with
  | inl v => if v =? pattern then inr (f tt) else inl v
  | inr r => inr r
  end.

Definition Match_orElse {R} (f : unit -> R) (m : Z + R) : R :=
  match m with
  | inl _ => f tt
  | inr r => r
  end.

(** ** core/strict-types.ts *)

(** One entry of the [responses] of an operation: the keys of its [content]
    member, in order, when it has one. *)
Record ResponseSpec := { content : option (list string) }.

(** The [Responses] of an operation, by status code. *)
Abbreviation Responses := (gmap Z ResponseSpec).

(** [ContentTypesFor<Responses, Status>] *)
Definition ContentTypesFor (Rs : Responses) (Status : Z) : list string :=
  match Rs !! Status with
  | Some {| content := Some C |} => C
  | Some {| content := None |} => ["none"]
  | None => []
  end.

(** [AllResponseVariants<Responses>], as the set of the (status, content
    type) pairs of its members. *)
Definition AllResponseVariants (Rs : Responses) (S : Z) (CT : string) : bool :=
  bool_decide (CT ∈ ContentTypesFor Rs S).

(** [S extends 200 | 201 | 202 | 203 | 204 | 205 | 206 | 207 | 208 | 226] *)
Definition extendsSuccessLiterals (S : Z) : bool :=
  bool_decide (S ∈ [200; 201; 202; 203; 204; 205; 206; 207; 208; 226]).

(** [SuccessVariants<Responses>] *)
Definition SuccessVariants (Rs : Responses) (S : Z) (CT : string) : bool :=
  AllResponseVariants Rs S CT && extendsSuccessLiterals S.

(** [HttpErrorVariants<Responses>] *)
Definition HttpErrorVariants (Rs : Responses) (S : Z) (CT : string) : bool :=
  AllResponseVariants Rs S CT && negb (extendsSuccessLiterals S).

Inductive TransportError :=
  mkTransportError (error : JsError).

Inductive UnexpectedStatus :=
  mkUnexpectedStatus (status : Z) (body : string).

Inductive UnexpectedContentType :=
  mkUnexpectedContentType (status : Z) (expected : list string)
    (actual : option string) (body : string).

Inductive ParseError :=
  mkParseError (status : Z) (contentType : string) (error : JsError) (body : string).

Inductive DecodeError :=
  mkDecodeError (status : Z) (contentType : string) (error : Thrown) (body : string).

(** [BoundaryError], the union of the five, discriminated by [_tag]. *)
Inductive BoundaryError :=
| isTransportError (e : TransportError)
| isUnexpectedStatus (e : UnexpectedStatus)
| isUnexpectedContentType (e : UnexpectedContentType)
| isParseError (e : ParseError)
| isDecodeError (e : DecodeError).

Definition _tag (e : BoundaryError) : string :=
  match e with
  | isTransportError _ => "TransportError"
  | isUnexpectedStatus _ => "UnexpectedStatus"
  | isUnexpectedContentType _ => "UnexpectedContentType"
  | isParseError _ => "ParseError"
  | isDecodeError _ => "DecodeError"
  end.

(** The [body] of a response variant: [undefined] for a response without
    content, else what the decoder returned. *)
Inductive Body (D : Type) :=
| Undefined
| Decoded (d : D).
Arguments Undefined {D}.
Arguments Decoded {D} d.

(** [ResponseVariant]: [{ status, contentType, body }]. *)
Record ResponseVariant (D : Type) := mkResponseVariant {
  variantStatus : Z;
  variantContentType : string;
  variantBody : Body D
}.
Arguments mkResponseVariant {D}.
Arguments variantStatus {D}.
Arguments variantContentType {D}.
Arguments variantBody {D}.

(** ** shell/strict-client.ts *)

Record RawResponse := mkRawResponse {
  status : Z;
  headers : Headers;
  text : string
}.

(** [Dispatcher<Responses>] *)
Definition Dispatcher (D : Type) : Type :=
  RawResponse -> Effect (ResponseVariant D) BoundaryError.

(** [HttpMethod]: the lower-case method names. *)
Inductive HttpMethod := GET | PUT | POST | DELETE | OPTIONS | HEAD | PATCH | TRACE.

Record AbortSignal := { aborted : bool }.

(** A [BodyInit]: a string, or an object (a Blob, a BufferSource, a FormData,
    a URLSearchParams, a ReadableStream), known by its reference. *)
Inductive BodyInit :=
| BodyString (s : string)
| BodyObject (ref : N).

Record StrictRequestInit (D : Type) := mkStrictRequestInit {
  reqMethod : HttpMethod;
  reqUrl : string;
  reqDispatcher : Dispatcher D;
  reqHeaders : option Headers;
  reqBody : option BodyInit;
  reqSignal : option AbortSignal
}.
Arguments mkStrictRequestInit {D}.
Arguments reqMethod {D}.
Arguments reqUrl {D}.
Arguments reqDispatcher {D}.
Arguments reqHeaders {D}.
Arguments reqBody {D}.
Arguments reqSignal {D}.

(** The [RequestInit] handed to [fetch]. *)
Record RequestInit := mkRequestInit {
  initMethod : HttpMethod;
  initHeaders : option Headers;
  initBody : option BodyInit;
  initSignal : option AbortSignal
}.

(** What [fetch] resolves with: [text()] is a promise of its own. *)
Record FetchResponse := mkFetchResponse {
  responseStatus : Z;
  responseHeaders : Headers;
  responseText : Completion string
}.

(** [contentType?.includes(pattern)], as a condition. *)
Definition includes_opt (contentType : option string) (pattern : string) : bool :=
  match contentType with
  | Some ct => includes ct pattern
  | None => false
  end.

Definition createDispatcher {D}
  (classify : Z -> option string -> string -> Effect (ResponseVariant D) BoundaryError)
  : Dispatcher D :=
  fun response =>
    let contentType := Headers_get (headers response) "content-type" in
    classify (status response) contentType (text response).

Definition unexpectedStatus (status : Z) (body : string) : UnexpectedStatus :=
  mkUnexpectedStatus status body.

Definition unexpectedContentType (status : Z) (expected : list string)
  (actual : option string) (body : string) : UnexpectedContentType :=
  mkUnexpectedContentType status expected actual body.

(** [RequestOptions]: the options of one call of the client. *)
Record RequestOptions (D : Type) := mkRequestOptions {
  dispatcher : Dispatcher D;
  baseUrl : string;
  params : option (list (string * StringOrNumber));
  query : option (list (string * StringOrNumber));
  optHeaders : option Headers;
  optBody : option BodyInit;
  optSignal : option AbortSignal
}.
Arguments dispatcher {D}.
Arguments baseUrl {D}.
Arguments params {D}.
Arguments query {D}.
Arguments optHeaders {D}.
Arguments optBody {D}.
Arguments mkRequestOptions {D}.
Arguments optSignal {D}.

Section StrictClient.

(** The host: [JSON.parse] and the global [fetch]. *)
Context (JSON_parse : string -> Completion Json).
Context (fetch : string -> RequestInit -> Completion FetchResponse).

Definition parseJSON (status : Z) (contentType text : string) : Effect Json ParseError :=
  Effect_try (JSON_parse text)
    (fun error => mkParseError status contentType (toError error) text).

Definition executeRequest {D} (config : StrictRequestInit D)
  : Effect (ResponseVariant D) BoundaryError :=
  let* rawResponse :=
    Effect_tryPromise
      (let fetchInit :=
         mkRequestInit (reqMethod config) (reqHeaders config) (reqBody config)
           (reqSignal config) in
       await response := fetch (reqUrl config) fetchInit in
       await text := responseText response in
       Normal (mkRawResponse (responseStatus response) (responseHeaders response) text))
      (fun error => isTransportError (mkTransportError (toError error))) in
  reqDispatcher config rawResponse.

(** The [requestInit] that [makeRequest] builds; [params] and [query] are
    listed in the order of [Object.entries]. *)
Definition requestInit {D} (method : HttpMethod) (path : string)
  (options : RequestOptions D) : StrictRequestInit D :=
  let url := baseUrl options +:+ path in
  let url :=
    match params options with
    | Some entries =>
        foldl (fun url kv => replace url ("{" +:+ kv.1 +:+ "}")
                               (encodeURIComponent (String_of kv.2)))
          url entries
    | None => url
    end in
  let url :=
    match query options with
    | Some entries =>
        let params :=
          foldl (fun params kv => URLSearchParams_append params kv.1 (String_of kv.2))
            [] entries in
        url +:+ "?" +:+ URLSearchParams_toString params
    | None => url
    end in
  mkStrictRequestInit method url (dispatcher options) (optHeaders options)
    (optBody options) (optSignal options).

Definition makeRequest {D} (method : HttpMethod) (path : string)
  (options : RequestOptions D) : Effect (ResponseVariant D) BoundaryError :=
  executeRequest (requestInit method path options).

(** [StrictClient<Paths>]: one function per method. *)
Record StrictClient := mkStrictClient {
  client_GET : forall D, string -> RequestOptions D ->
               Effect (ResponseVariant D) BoundaryError;
  client_POST : forall D, string -> RequestOptions D ->
                Effect (ResponseVariant D) BoundaryError;
  client_PUT : forall D, string -> RequestOptions D ->
               Effect (ResponseVariant D) BoundaryError;
  client_PATCH : forall D, string -> RequestOptions D ->
                 Effect (ResponseVariant D) BoundaryError;
  client_DELETE : forall D, string -> RequestOptions D ->
                  Effect (ResponseVariant D) BoundaryError
}.

Definition createStrictClient : StrictClient :=
  {| client_GET := fun D path options => makeRequest GET path options;
     client_POST := fun D path options => makeRequest POST path options;
     client_PUT := fun D path options => makeRequest PUT path options;
     client_PATCH := fun D path options => makeRequest PATCH path options;
     client_DELETE := fun D path options => makeRequest DELETE path options |}.

End StrictClient.

(** ** generated/decoders.ts *)

(** The generated decoders are stubs: each succeeds with the parsed value. *)
Definition decodelistPets_200 (_status : Z) (_contentType _body : string) (parsed : Json)
  : Effect Json DecodeError := Succeed parsed.

Definition decodelistPets_500 (_status : Z) (_contentType _body : string) (parsed : Json)
  : Effect Json DecodeError := Succeed parsed.

Definition decodecreatePet_201 (_status : Z) (_contentType _body : string) (parsed : Json)
  : Effect Json DecodeError := Succeed parsed.

Definition decodecreatePet_400 (_status : Z) (_contentType _body : string) (parsed : Json)
  : Effect Json DecodeError := Succeed parsed.

Definition decodecreatePet_500 (_status : Z) (_contentType _body : string) (parsed : Json)
  : Effect Json DecodeError := Succeed parsed.

Definition decodegetPet_200 (_status : Z) (_contentType _body : string) (parsed : Json)
  : Effect Json DecodeError := Succeed parsed.

Definition decodegetPet_404 (_status : Z) (_contentType _body : string) (parsed : Json)
  : Effect Json DecodeError := Succeed parsed.

Definition decodegetPet_500 (_status : Z) (_contentType _body : string) (parsed : Json)
  : Effect Json DecodeError := Succeed parsed.

Definition decodedeletePet_404 (_status : Z) (_contentType _body : string) (parsed : Json)
  : Effect Json DecodeError := Succeed parsed.

Definition decodedeletePet_500 (_status : Z) (_contentType _body : string) (parsed : Json)
  : Effect Json DecodeError := Succeed parsed.

(** A decoder as the dispatchers call it. *)
Definition Decoder (D : Type) : Type :=
  Z -> string -> string -> Json -> Effect D DecodeError.

(** ** generated/dispatch.ts, with [switch] (packages/strict-effect-api-client) *)

Module Switch.
Section Dispatch.

Context (JSON_parse : string -> Completion Json).

(** Dispatcher for listPets; handles statuses 200, 500. *)
Definition dispatcherlistPets : Dispatcher Json :=
  createDispatcher (fun status contentType text =>
  if status =? 200 then
    if includes_opt contentType "application/json" then
      let* parsed :=
        Effect_mapError (parseJSON JSON_parse status "application/json" text) isParseError in
      let* decoded :=
        Effect_mapError (decodelistPets_200 status "application/json" text parsed)
          isDecodeError in
      Succeed (mkResponseVariant 200 "application/json" (Decoded decoded))
    else
      Fail (isUnexpectedContentType
              (unexpectedContentType status ["application/json"] contentType text))
  else if status =? 500 then
    if includes_opt contentType "application/json" then
      let* parsed :=
        Effect_mapError (parseJSON JSON_parse status "application/json" text) isParseError in
      let* decoded :=
        Effect_mapError (decodelistPets_500 status "application/json" text parsed)
          isDecodeError in
      Succeed (mkResponseVariant 500 "application/json" (Decoded decoded))
    else
      Fail (isUnexpectedContentType
              (unexpectedContentType status ["application/json"] contentType text))
  else Fail (isUnexpectedStatus (unexpectedStatus status text))).

(** Dispatcher for createPet; handles statuses 201, 400, 500. *)
Definition dispatchercreatePet : Dispatcher Json :=
  createDispatcher (fun status contentType text =>
  if status =? 201 then
    if includes_opt contentType "application/json" then
      let* parsed :=
        Effect_mapError (parseJSON JSON_parse status "application/json" text) isParseError in
      let* decoded :=
        Effect_mapError (decodecreatePet_201 status "application/json" text parsed)
          isDecodeError in
      Succeed (mkResponseVariant 201 "application/json" (Decoded decoded))
    else
      Fail (isUnexpectedContentType
              (unexpectedContentType status ["application/json"] contentType text))
  else if status =? 400 then
    if includes_opt contentType "application/json" then
      let* parsed :=
        Effect_mapError (parseJSON JSON_parse status "application/json" text) isParseError in
      let* decoded :=
        Effect_mapError (decodecreatePet_400 status "application/json" text parsed)
          isDecodeError in
      Succeed (mkResponseVariant 400 "application/json" (Decoded decoded))
    else
      Fail (isUnexpectedContentType
              (unexpectedContentType status ["application/json"] contentType text))
  else if status =? 500 then
    if includes_opt contentType "application/json" then
      let* parsed :=
        Effect_mapError (parseJSON JSON_parse status "application/json" text) isParseError in
      let* decoded :=
        Effect_mapError (decodecreatePet_500 status "application/json" text parsed)
          isDecodeError in
      Succeed (mkResponseVariant 500 "application/json" (Decoded decoded))
    else
      Fail (isUnexpectedContentType
              (unexpectedContentType status ["application/json"] contentType text))
  else Fail (isUnexpectedStatus (unexpectedStatus status text))).

(** Dispatcher for getPet; handles statuses 200, 404, 500. *)
Definition dispatchergetPet : Dispatcher Json :=
  createDispatcher (fun status contentType text =>
  if status =? 200 then
    if includes_opt contentType "application/json" then
      let* parsed :=
        Effect_mapError (parseJSON JSON_parse status "application/json" text) isParseError in
      let* decoded :=
        Effect_mapError (decodegetPet_200 status "application/json" text parsed)
          isDecodeError in
      Succeed (mkResponseVariant 200 "application/json" (Decoded decoded))
    else
      Fail (isUnexpectedContentType
              (unexpectedContentType status ["application/json"] contentType text))
  else if status =? 404 then
    if includes_opt contentType "application/json" then
      let* parsed :=
        Effect_mapError (parseJSON JSON_parse status "application/json" text) isParseError in
      let* decoded :=
        Effect_mapError (decodegetPet_404 status "application/json" text parsed)
          isDecodeError in
      Succeed (mkResponseVariant 404 "application/json" (Decoded decoded))
    else
      Fail (isUnexpectedContentType
              (unexpectedContentType status ["application/json"] contentType text))
  else if status =? 500 then
    if includes_opt contentType "application/json" then
      let* parsed :=
        Effect_mapError (parseJSON JSON_parse status "application/json" text) isParseError in
      let* decoded :=
        Effect_mapError (decodegetPet_500 status "application/json" text parsed)
          isDecodeError in
      Succeed (mkResponseVariant 500 "application/json" (Decoded decoded))
    else
      Fail (isUnexpectedContentType
              (unexpectedContentType status ["application/json"] contentType text))
  else Fail (isUnexpectedStatus (unexpectedStatus status text))).

(** Dispatcher for deletePet; handles statuses 204, 404, 500. *)
Definition dispatcherdeletePet : Dispatcher Json :=
  createDispatcher (fun status contentType text =>
  if status =? 204 then
    Succeed (mkResponseVariant 204 "none" Undefined)
  else if status =? 404 then
    if includes_opt contentType "application/json" then
      let* parsed :=
        Effect_mapError (parseJSON JSON_parse status "application/json" text) isParseError in
      let* decoded :=
        Effect_mapError (decodedeletePet_404 status "application/json" text parsed)
          isDecodeError in
      Succeed (mkResponseVariant 404 "application/json" (Decoded decoded))
    else
      Fail (isUnexpectedContentType
              (unexpectedContentType status ["application/json"] contentType text))
  else if status =? 500 then
    if includes_opt contentType "application/json" then
      let* parsed :=
        Effect_mapError (parseJSON JSON_parse status "application/json" text) isParseError in
      let* decoded :=
        Effect_mapError (decodedeletePet_500 status "application/json" text parsed)
          isDecodeError in
      Succeed (mkResponseVariant 500 "application/json" (Decoded decoded))
    else
      Fail (isUnexpectedContentType
              (unexpectedContentType status ["application/json"] contentType text))
  else Fail (isUnexpectedStatus (unexpectedStatus status text))).

End Dispatch.
End Switch.

(** ** packages/app: [executeRequest] over the platform [HttpClient], and
       generated/dispatch.ts with [Match] *)

(** [HttpClientRequest] and [HttpBody] of the platform library, which is no
    part of the repository: the constructors and combinators that
    [buildRequest] calls. *)
Class Platform := {
  HttpClientRequest : Type;
  HttpBody : Type;
  HttpClientRequest_get : string -> HttpClientRequest;
  HttpClientRequest_post : string -> HttpClientRequest;
  HttpClientRequest_put : string -> HttpClientRequest;
  HttpClientRequest_patch : string -> HttpClientRequest;
  HttpClientRequest_del : string -> HttpClientRequest;
  HttpClientRequest_head : string -> HttpClientRequest;
  HttpClientRequest_options : string -> HttpClientRequest;
  HttpClientRequest_setHeaders :
    HttpClientRequest -> list (string * string) -> HttpClientRequest;
  HttpClientRequest_setBody : HttpClientRequest -> HttpBody -> HttpClientRequest;
  HttpBody_text : string -> HttpBody
}.

(** [HttpClientResponse]: [text] is an effect of its own. *)
Record HttpClientResponse := mkHttpClientResponse {
  platformStatus : Z;
  platformHeaders : list (string * string);
  platformText : Exit string Thrown
}.

(** [result[key] = value] on a record of strings. *)
Fixpoint record_set (result : list (string * string)) (key value : string)
  : list (string * string) :=
  match result with
  | [] => [(key, value)]
  | kv :: rest =>
      if bool_decide (kv.1 = key) then (key, value) :: rest
      else kv :: record_set rest key value
  end.

(** Convert [Headers] to a record of strings. *)
Definition toRecordHeaders (headers : Headers) : list (string * string) :=
  foldl (fun result kv => record_set result kv.1 kv.2) [] headers.

(** Convert the platform headers to native [Headers]: the loop ends at the
    first header that [headers.set] refuses. *)
Definition toNativeHeaders (platformHeaders : list (string * string))
  : Completion Headers :=
  foldl (fun headers kv => await headers := headers in Headers_set headers kv.1 kv.2)
    (Normal []) platformHeaders.

Section BuildRequest.

Context `{Platform}.
(** The host's [JSON.stringify], on the object of a reference. *)
Context (JSON_stringify : N -> Completion string).

(** [methodMap[config.method] ?? HttpClientRequest.get]: the map has no entry
    for trace. *)
Definition createRequest (method : HttpMethod) : string -> HttpClientRequest :=
  match method with
  | GET => HttpClientRequest_get
  | POST => HttpClientRequest_post
  | PUT => HttpClientRequest_put
  | PATCH => HttpClientRequest_patch
  | DELETE => HttpClientRequest_del
  | HEAD => HttpClientRequest_head
  | OPTIONS => HttpClientRequest_options
  | TRACE => HttpClientRequest_get
  end.

(** [typeof config.body === 'string' ? config.body : JSON.stringify(config.body)] *)
Definition bodyText (body : BodyInit) : Completion string :=
  match body with
  | BodyString s => Normal s
  | BodyObject ref => JSON_stringify ref
  end.

Definition buildRequest {D} (config : StrictRequestInit D) : Completion HttpClientRequest :=
  let request := createRequest (reqMethod config) (reqUrl config) in
  let request :=
    match reqHeaders config with
    | Some headers => HttpClientRequest_setHeaders request (toRecordHeaders headers)
    | None => request
    end in
  match reqBody config with
  | Some body =>
      await bodyText := bodyText body in
      Normal (HttpClientRequest_setBody request (HttpBody_text bodyText))
  | None => Normal request
  end.

End BuildRequest.

Module App.
Section Dispatch.

Context (JSON_parse : string -> Completion Json).
Context `{Platform}.
Context (JSON_stringify : N -> Completion string).
(** [client.execute] of the [HttpClient] service in context. *)
Context (client_execute : HttpClientRequest -> Exit HttpClientResponse Thrown).

(** The body of the outer [Effect.gen] runs [buildRequest], and the body of
    the inner one [toNativeHeaders], as synchronous steps; [Effect.mapError]
    wraps the inner one only. *)
Definition executeRequest {D} (config : StrictRequestInit D)
  : Exit (ResponseVariant D) BoundaryError :=
  let! request := Exit_sync (buildRequest JSON_stringify config) in
  let! rawResponse :=
    Exit_mapError
      (let! response := client_execute request in
       let! text := platformText response in
       let! headers := Exit_sync (toNativeHeaders (platformHeaders response)) in
       Success (mkRawResponse (platformStatus response) headers text))
      (fun error => isTransportError (mkTransportError (toError error))) in
  Exit_ofEffect (reqDispatcher config rawResponse).

(** Helper: process JSON content type for a given status. *)
Definition processJsonContent {D} (status : Z) (contentType : option string)
  (text : string) (decoder : Decoder D) : Effect (ResponseVariant D) BoundaryError :=
  if includes_opt contentType "application/json" then
    let* parsed :=
      Effect_mapError (parseJSON JSON_parse status "application/json" text) isParseError in
    let* decoded :=
      Effect_mapError (decoder status "application/json" text parsed) isDecodeError in
    Succeed (mkResponseVariant status "application/json" (Decoded decoded))
  else
    Fail (isUnexpectedContentType
            (unexpectedContentType status ["application/json"] contentType text)).

(** Dispatcher for listPets; handles statuses 200, 500. *)
Definition dispatcherlistPets : Dispatcher Json :=
  createDispatcher (fun status contentType text =>
    Match_value status
    |> Match_when 200
         (fun _ => processJsonContent 200 contentType text decodelistPets_200)
    |> Match_when 500
         (fun _ => processJsonContent 500 contentType text decodelistPets_500)
    |> Match_orElse (fun _ => Fail (isUnexpectedStatus (unexpectedStatus status text)))).

(** Dispatcher for createPet; handles statuses 201, 400, 500. *)
Definition dispatchercreatePet : Dispatcher Json :=
  createDispatcher (fun status contentType text =>
    Match_value status
    |> Match_when 201
         (fun _ => processJsonContent 201 contentType text decodecreatePet_201)
    |> Match_when 400
         (fun _ => processJsonContent 400 contentType text decodecreatePet_400)
    |> Match_when 500
         (fun _ => processJsonContent 500 contentType text decodecreatePet_500)
    |> Match_orElse (fun _ => Fail (isUnexpectedStatus (unexpectedStatus status text)))).

(** Dispatcher for getPet; handles statuses 200, 404, 500. *)
Definition dispatchergetPet : Dispatcher Json :=
  createDispatcher (fun status contentType text =>
    Match_value status
    |> Match_when 200
         (fun _ => processJsonContent 200 contentType text decodegetPet_200)
    |> Match_when 404
         (fun _ => processJsonContent 404 contentType text decodegetPet_404)
    |> Match_when 500
         (fun _ => processJsonContent 500 contentType text decodegetPet_500)
    |> Match_orElse (fun _ => Fail (isUnexpectedStatus (unexpectedStatus status text)))).

(** Dispatcher for deletePet; handles statuses 204, 404, 500. *)
Definition dispatcherdeletePet : Dispatcher Json :=
  createDispatcher (fun status contentType text =>
    Match_value status
    |> Match_when 204 (fun _ => Succeed (mkResponseVariant 204 "none" Undefined))
    |> Match_when 404
         (fun _ => processJsonContent 404 contentType text decodedeletePet_404)
    |> Match_when 500
         (fun _ => processJsonContent 500 contentType text decodedeletePet_500)
    |> Match_orElse (fun _ => Fail (isUnexpectedStatus (unexpectedStatus status text)))).

End Dispatch.
End App.

(** ** scripts/gen-strict-api.ts: the dispatcher generated for an operation *)

Section Generated.

Context (JSON_parse : string -> Completion Json).
Context {D : Type}.
(** [Decoders.decode<operationId>_<status>...], by status and content type. *)
Context (decoders : Z -> string -> Decoder D).

(** [response.content ? Object.keys(response.content) : []] *)
Definition contentTypes (response : ResponseSpec) : list string :=
  match content response with
  | Some keys => keys
  | None => []
  end.

(** The condition emitted for a declared content type: a substring test for
    application/json, strict equality for every other type. *)
Definition ctCheck (ct : string) (contentType : option string) : bool :=
  if bool_decide (ct = "application/json")
  then includes_opt contentType "application/json"
  else bool_decide (contentType = Some ct).

(** The [if] blocks emitted for the content types of one status, in order,
    followed by the [return] that ends the [case]. *)
Fixpoint ctCases (status : Z) (contentType : option string) (text : string)
  (cts : list string) (otherwise : Effect (ResponseVariant D) BoundaryError)
  : Effect (ResponseVariant D) BoundaryError :=
  match cts with
  | [] => otherwise
  | ct :: rest =>
      if ctCheck ct contentType then
        let* parsed := Effect_mapError (parseJSON JSON_parse status ct text) isParseError in
        let* decoded :=
          Effect_mapError (decoders status ct status ct text parsed) isDecodeError in
        Succeed (mkResponseVariant status ct (Decoded decoded))
      else ctCases status contentType text rest otherwise
  end.

(** The [case] emitted for one status of the operation. *)
Definition statusHandler (status : Z) (response : ResponseSpec)
  (contentType : option string) (text : string)
  : Effect (ResponseVariant D) BoundaryError :=
  match contentTypes response with
  | [] => Succeed (mkResponseVariant status "none" Undefined)
  | cts =>
      ctCases status contentType text cts
        (Fail (isUnexpectedContentType (unexpectedContentType status cts contentType text)))
  end.

(** The dispatcher emitted for an operation with the given [responses]: a
    [switch] on the status with one [case] per declared status. *)
Definition generatedDispatcher (responses : Responses) : Dispatcher D :=
  createDispatcher (fun status contentType text =>
    match responses !! status with
    | Some response => statusHandler status response contentType text
    | None => Fail (isUnexpectedStatus (unexpectedStatus status text))
    end).

End Generated.

(** The responses of the petstore operations (tests/fixtures/petstore), as
    the headers of the generated dispatchers list them. *)
Definition jsonResponse : ResponseSpec := {| content := Some ["application/json"] |}.
Definition emptyResponse : ResponseSpec := {| content := None |}.

Definition listPets_responses : Responses :=
  {[ 200 := jsonResponse; 500 := jsonResponse ]}.
Definition createPet_responses : Responses :=
  {[ 201 := jsonResponse; 400 := jsonResponse; 500 := jsonResponse ]}.
Definition getPet_responses : Responses :=
  {[ 200 := jsonResponse; 404 := jsonResponse; 500 := jsonResponse ]}.
Definition deletePet_responses : Responses :=
  {[ 204 := emptyResponse; 404 := jsonResponse; 500 := jsonResponse ]}.

(** Every petstore decoder is the same stub. *)
Definition stubDecoders : Z -> string -> Decoder Json :=
  fun _ _ _status _contentType _body parsed => Succeed parsed.

(** ** The decision sequence of the classifier, as a relation *)

(** The variants of the outcome of a request. *)
Inductive OutcomeTag :=
| SuccessTag
| HttpErrorTag
| TransportErrorTag
| UnexpectedStatusTag
| UnexpectedContentTypeTag
| ParseErrorTag
| DecodeErrorTag.

(** A returned variant is a success or a declared HTTP error by the filter of
    [SuccessVariants] and [HttpErrorVariants] on its status. *)
Definition variantTag (status : Z) : OutcomeTag :=
  if extendsSuccessLiterals status then SuccessTag else HttpErrorTag.

Definition outcomeTag {D} (outcome : Effect (ResponseVariant D) BoundaryError)
  : OutcomeTag :=
  match outcome with
  | Succeed v => variantTag (variantStatus v)
  | Fail (isTransportError _) => TransportErrorTag
  | Fail (isUnexpectedStatus _) => UnexpectedStatusTag
  | Fail (isUnexpectedContentType _) => UnexpectedContentTypeTag
  | Fail (isParseError _) => ParseErrorTag
  | Fail (isDecodeError _) => DecodeErrorTag
  end.

(** The [_tag] of a failure. *)
Definition _tag_of_failure {A} (outcome : Effect A BoundaryError) : option string :=
  match outcome with
  | Succeed _ => None
  | Fail e => Some (_tag e)
  end.

(** The content-type header of a response, as [createDispatcher] reads it. *)
Definition contentTypeOf (r : RawResponse) : option string :=
  Headers_get (headers r) "content-type".

(** The first declared content type that the header value passes. *)
Definition matchedContentType (cts : list string) (contentType : option string)
  : option string :=
  List.find (fun ct => ctCheck ct contentType) cts.

Section Checks.

Context (JSON_parse : string -> Completion Json).
Context {D : Type}.
Context (decoders : Z -> string -> Decoder D).
Context (responses : Responses).

(** The checks of the classifier, each with the outcome it decides: status
    lookup, the no-body case, content-type match, parse, decode, tag. *)
Inductive Check (r : RawResponse)
  : OutcomeTag -> Effect (ResponseVariant D) BoundaryError -> Prop :=
| check_status :
    responses !! status r = None ->
    Check r UnexpectedStatusTag
      (Fail (isUnexpectedStatus (mkUnexpectedStatus (status r) (text r))))
| check_no_body response :
    responses !! status r = Some response ->
    contentTypes response = [] ->
    Check r (variantTag (status r))
      (Succeed (mkResponseVariant (status r) "none" Undefined))
| check_content_type response :
    responses !! status r = Some response ->
    contentTypes response <> [] ->
    matchedContentType (contentTypes response) (contentTypeOf r) = None ->
    Check r UnexpectedContentTypeTag
      (Fail (isUnexpectedContentType
               (mkUnexpectedContentType (status r) (contentTypes response)
                  (contentTypeOf r) (text r))))
| check_parse response ct error :
    responses !! status r = Some response ->
    matchedContentType (contentTypes response) (contentTypeOf r) = Some ct ->
    JSON_parse (text r) = Throw error ->
    Check r ParseErrorTag
      (Fail (isParseError (mkParseError (status r) ct (toError error) (text r))))
| check_decode response ct parsed e :
    responses !! status r = Some response ->
    matchedContentType (contentTypes response) (contentTypeOf r) = Some ct ->
    JSON_parse (text r) = Normal parsed ->
    decoders (status r) ct (status r) ct (text r) parsed = Fail e ->
    Check r DecodeErrorTag (Fail (isDecodeError e))
| check_tag response ct parsed d :
    responses !! status r = Some response ->
    matchedContentType (contentTypes response) (contentTypeOf r) = Some ct ->
    JSON_parse (text r) = Normal parsed ->
    decoders (status r) ct (status r) ct (text r) parsed = Succeed d ->
    Check r (variantTag (status r))
      (Succeed (mkResponseVariant (status r) ct (Decoded d))).

End Checks.

(** ** The URL of a request, in words *)

(** [pat] occurs in [s]. *)
Definition occursIn (pat s : string) : Prop :=
  exists pre post, s = pre +:+ pat +:+ post.

(** [s] with the first occurrence of [pat], if there is one, turned into
    [rep], taken literally. *)
Fixpoint substituteFirst (s pat rep : string) : string :=
  if startsWith s pat then rep +:+ drop_string (String.length pat) s
  else match s with
       | EmptyString => EmptyString
       | String c s' => String c (substituteFirst s' pat rep)
       end.

(** Path parameters, one after the other: the first occurrence of the
    placeholder of each takes the encoded value. *)
Fixpoint substituteParams (url : string) (entries : list (string * StringOrNumber))
  : string :=
  match entries with
  | [] => url
  | (key, value) :: rest =>
      substituteParams
        (substituteFirst url ("{" +:+ key +:+ "}") (encodeURIComponent (String_of value)))
        rest
  end.

(** The query string: the form-urlencoded pairs, joined by an ampersand. *)
Definition queryString (entries : list (string * StringOrNumber)) : string :=
  joinWith "&"
    (map (fun kv => formUrlEncode kv.1 +:+ "=" +:+ formUrlEncode (String_of kv.2)) entries).

Definition urlInWords (baseUrl path : string)
  (params query : option (list (string * StringOrNumber))) : string :=
  substituteParams (baseUrl +:+ path) (default [] params)
  +:+ match query with
      | Some entries => "?" +:+ queryString entries
      | None => ""
      end.

Definition hexChars : string := "0123456789ABCDEF".

(** A percent-encoded text: characters of the [safe] set and [%XX] triplets. *)
Inductive PercentEncoded (safe : ascii -> bool) : string -> Prop :=
| pe_empty : PercentEncoded safe EmptyString
| pe_safe c s : safe c = true -> PercentEncoded safe s -> PercentEncoded safe (String c s)
| pe_escape hi lo s :
    isOneOf hexChars hi = true ->
    isOneOf hexChars lo = true ->
    PercentEncoded safe s ->
    PercentEncoded safe (String "%" (String hi (String lo s))).

(** What the form-urlencoded serialiser emits unescaped: the characters it
    keeps, and the plus sign that stands for a space. *)
Definition formSafe (c : ascii) : bool :=
  isAlphaNum c || isOneOf "*-._+" c.

(** A replacement text in which [replace] finds nothing to expand. *)
Definition noDollar (s : string) : bool :=
  forallb (fun c => negb (Ascii.eqb c "$")) (list_ascii_of_string s).

(** A declared content type accepts a header value, in words: the value
    contains application/json when that is the declared type, and is the
    declared type itself otherwise. *)
Definition accepts (ct : string) (contentType : option string) : Prop :=
  exists c, contentType = Some c /\
    if bool_decide (ct = "application/json")
    then occursIn "application/json" c
    else c = ct.

(** ** The transport step, as a relation *)

(** What the network did for a request sent with [fetch]: the call was
    rejected, the body could not be read, or a raw response was delivered. *)
Inductive Transport (fetch : string -> RequestInit -> Completion FetchResponse)
  {D} (config : StrictRequestInit D) : Completion RawResponse -> Prop :=
| transport_rejected cause :
    fetch (reqUrl config)
      (mkRequestInit (reqMethod config) (reqHeaders config) (reqBody config)
         (reqSignal config)) = Throw cause ->
    Transport fetch config (Throw cause)
| transport_body_failed response cause :
    fetch (reqUrl config)
      (mkRequestInit (reqMethod config) (reqHeaders config) (reqBody config)
         (reqSignal config)) = Normal response ->
    responseText response = Throw cause ->
    Transport fetch config (Throw cause)
| transport_delivered response text :
    fetch (reqUrl config)
      (mkRequestInit (reqMethod config) (reqHeaders config) (reqBody config)
         (reqSignal config)) = Normal response ->
    responseText response = Normal text ->
    Transport fetch config
      (Normal (mkRawResponse (responseStatus response) (responseHeaders response) text)).

(** What [executeRequest] makes of the transport step. *)
Definition afterTransport {D} (config : StrictRequestInit D)
  (transport : Completion RawResponse) : Effect (ResponseVariant D) BoundaryError :=
  match transport with
  | Throw cause => Fail (isTransportError (mkTransportError (toError cause)))
  | Normal rawResponse => reqDispatcher config rawResponse
  end.

(** The same for a request sent through the platform [HttpClient]: the client
    failed, the body could not be read, or a response was delivered; and,
    outside the failure channel, the request could not be built, the client
    or the reading of the body died, or a header of the response was
    refused. *)
Inductive PlatformTransport `{Platform} (JSON_stringify : N -> Completion string)
  (client_execute : HttpClientRequest -> Exit HttpClientResponse Thrown)
  {D} (config : StrictRequestInit D) : Exit RawResponse Thrown -> Prop :=
| platform_unbuilt defect :
    buildRequest JSON_stringify config = Throw defect ->
    PlatformTransport JSON_stringify client_execute config (Die defect)
| platform_rejected request cause :
    buildRequest JSON_stringify config = Normal request ->
    client_execute request = Failure cause ->
    PlatformTransport JSON_stringify client_execute config (Failure cause)
| platform_died request defect :
    buildRequest JSON_stringify config = Normal request ->
    client_execute request = Die defect ->
    PlatformTransport JSON_stringify client_execute config (Die defect)
| platform_body_failed request response cause :
    buildRequest JSON_stringify config = Normal request ->
    client_execute request = Success response ->
    platformText response = Failure cause ->
    PlatformTransport JSON_stringify client_execute config (Failure cause)
| platform_body_died request response defect :
    buildRequest JSON_stringify config = Normal request ->
    client_execute request = Success response ->
    platformText response = Die defect ->
    PlatformTransport JSON_stringify client_execute config (Die defect)
| platform_header_refused request response text defect :
    buildRequest JSON_stringify config = Normal request ->
    client_execute request = Success response ->
    platformText response = Success text ->
    toNativeHeaders (platformHeaders response) = Throw defect ->
    PlatformTransport JSON_stringify client_execute config (Die defect)
| platform_delivered request response text headers :
    buildRequest JSON_stringify config = Normal request ->
    client_execute request = Success response ->
    platformText response = Success text ->
    toNativeHeaders (platformHeaders response) = Normal headers ->
    PlatformTransport JSON_stringify client_execute config
      (Success (mkRawResponse (platformStatus response) headers text)).

(** What [executeRequest] of the platform client makes of the transport
    step. *)
Definition afterPlatformTransport {D} (config : StrictRequestInit D)
  (transport : Exit RawResponse Thrown) : Exit (ResponseVariant D) BoundaryError :=
  match transport with
  | Failure cause => Failure (isTransportError (mkTransportError (toError cause)))
  | Die defect => Die defect
  | Success rawResponse => Exit_ofEffect (reqDispatcher config rawResponse)
  end.

(** ** Sample responses and requests *)

(** Scenario C: a status declared nowhere. *)
Definition teapot : RawResponse :=
  mkRawResponse 418 [("content-type", "text/plain")] "I'm a teapot".

(** Scenario D: status 200 with text/html. *)
Definition scenarioD : RawResponse :=
  mkRawResponse 200 [("content-type", "text/html")] "<html><body>Hello</body></html>".

(** text/html again, with a body that is a JSON text. *)
Definition htmlFor200 : RawResponse :=
  mkRawResponse 200 [("content-type", "text/html")] "[]".

Definition htmlFor204 : RawResponse :=
  mkRawResponse 204 [("content-type", "text/html")] "[]".

Definition upperCaseJson : RawResponse :=
  mkRawResponse 200 [("content-type", "Application/JSON; charset=utf-8")] "[]".

Definition jsonPatch : RawResponse :=
  mkRawResponse 200 [("content-type", "application/json-patch+json")] "[]".

Definition charsetJson : RawResponse :=
  mkRawResponse 200 [("content-type", "application/json; charset=utf-8")] "[]".

(** Scenario E: a malformed body. *)
Definition malformed : RawResponse :=
  mkRawResponse 200 [("content-type", "application/json")] (jsonText "{'bad': json}").

(** Scenario B: a list of pets, alone and among other headers. *)
Definition petsPlain : RawResponse :=
  mkRawResponse 200 [("content-type", "application/json")] (jsonText "[{'id':'1'}]").

Definition petsOtherHeaders : RawResponse :=
  mkRawResponse 200
    [("x-request-id", "42"); ("content-type", "application/json"); ("server", "nginx")]
    (jsonText "[{'id':'1'}]").

(** Tables that declare a status of the range 200 to 299 outside the
    literals of [SuccessVariants]. *)
Definition declares209 : Responses := {[ 209 := jsonResponse ]}.
Definition declares299 : Responses := {[ 299 := jsonResponse ]}.

Definition getPetOptions (params query : option (list (string * StringOrNumber)))
  : RequestOptions Json :=
  mkRequestOptions (Switch.dispatchergetPet JSON.parse) "https://api.example.com"
    params query None None None.

(** ** A decoder that validates: the mock decoder of the boundary tests *)

(** [key in parsed] on the members of an object. *)
Definition hasKey (key : string) (members : list (string * Json)) : bool :=
  bool_decide (key ∈ members.*1).

(** Accepts an object with the keys id and name; fails with a [DecodeError]
    on anything else (an array, although an object, has neither key). *)
Definition mockDecoder : Decoder Json :=
  fun status contentType body parsed =>
    match parsed with
    | JObject members =>
        if hasKey "id" members && hasKey "name" members then Succeed parsed
        else Fail (mkDecodeError status contentType
                     (ThrownError (mkError "Error" "Expected id and name")) body)
    | _ => Fail (mkDecodeError status contentType
                   (ThrownError (mkError "Error" "Expected id and name")) body)
    end.

(** ** scripts/gen-strict-api.ts: the names of the generated decoders *)

(** [s.replace(/[^a-zA-Z0-9]/g, "_")] *)
Fixpoint sanitize (s : string) : string :=
  match s with
  | EmptyString => EmptyString
  | String c s' => String (if isAlphaNum c then c else "_"%char) (sanitize s')
  end.

(** [OperationSpec]: [responses] are listed in the order of [Object.entries]. *)
Record OperationSpec := mkOperationSpec {
  operationId : option string;
  operationResponses : list (string * ResponseSpec)
}.

(** [OpenAPISpec]: the entries of [paths], each with the entries of its
    path item. *)
Definition OpenAPISpec : Type := list (string * list (string * OperationSpec)).

(** [operation.operationId ?? method + sanitized path] *)
Definition operationIdOf (pathKey method : string) (operation : OperationSpec) : string :=
  default (method +:+ sanitize pathKey) (operationId operation).

(** The decoders that [generateDecodersFile] declares for one response. *)
Definition declaredForResponse (operationId status : string) (response : ResponseSpec)
  : list string :=
  let contentTypes := contentTypes response in
  if (length contentTypes =? 0)%nat then []
  else
    map (fun ct =>
           if (length contentTypes =? 1)%nat
           then "decode" +:+ operationId +:+ "_" +:+ status
           else "decode" +:+ operationId +:+ "_" +:+ status +:+ "_" +:+ sanitize ct)
      contentTypes.

(** The decoders that the [case] emitted by [generateDispatchFile] for one
    response calls. *)
Definition calledForResponse (operationId status : string) (response : ResponseSpec)
  : list string :=
  let contentTypes := contentTypes response in
  if (length contentTypes =? 0)%nat then []
  else if (length contentTypes =? 1)%nat then
    match contentTypes with
    | ct :: _ => ["decode" +:+ operationId +:+ "_" +:+ status]
    | [] => []
    end
  else
    map (fun ct => "decode" +:+ operationId +:+ "_" +:+ status +:+ "_" +:+ sanitize ct)
      contentTypes.

(** The three nested loops of both generator functions. *)
Definition overResponses (f : string -> string -> ResponseSpec -> list string)
  (spec : OpenAPISpec) : list string :=
  '(pathKey, pathItem) ← spec;
  '(method, operation) ← pathItem;
  '(status, response) ← operationResponses operation;
  f (operationIdOf pathKey method operation) status response.

Definition declaredDecoders (spec : OpenAPISpec) : list string :=
  overResponses declaredForResponse spec.

Definition calledDecoders (spec : OpenAPISpec) : list string :=
  overResponses calledForResponse spec.

(** Occurrences of a character in a string. *)
Fixpoint countChar (c : ascii) (s : string) : nat :=
  match s with
  | EmptyString => 0
  | String x s' => (if Ascii.eqb x c then 1 else 0) + countChar c s'
  end.

(** ** More sample data *)

Definition twoJsonTypes : Responses :=
  {[ 200 := {| content := Some ["application/json"; "application/json-patch+json"] |} ]}.

Definition noHeaders200 : RawResponse := mkRawResponse 200 [] "[]".

Definition wrongSchema : RawResponse :=
  mkRawResponse 200 [("content-type", "application/json")]
    (jsonText "{'unexpected': 'field'}").

Definition fluffy : RawResponse :=
  mkRawResponse 200 [("content-type", "application/json")]
    (jsonText "{'id': '1', 'name': 'Fluffy'}").

(** The petstore document, as far as the generator reads it. *)
Definition petstore : OpenAPISpec :=
  [("/pets",
    [("get", mkOperationSpec (Some "listPets")
               [("200", jsonResponse); ("500", jsonResponse)]);
     ("post", mkOperationSpec (Some "createPet")
                [("201", jsonResponse); ("400", jsonResponse); ("500", jsonResponse)])]);
   ("/pets/{petId}",
    [("get", mkOperationSpec (Some "getPet")
               [("200", jsonResponse); ("404", jsonResponse); ("500", jsonResponse)]);
     ("delete", mkOperationSpec (Some "deletePet")
                  [("204", emptyResponse); ("404", jsonResponse); ("500", jsonResponse)])])].

(** A [fetch] that resolves with the same response whatever it is asked. *)
Definition mockFetch (response : FetchResponse)
  : string -> RequestInit -> Completion FetchResponse :=
  fun _ _ => Normal response.

Definition deletePetOptions : RequestOptions Json :=
  mkRequestOptions (Switch.dispatcherdeletePet JSON.parse) "https://api.example.com"
    (Some [("petId", Str "42")]) None None None None.

(** A method of the client delivers: when [fetch], asked for the built URL
    with the verb and the headers, body and signal of the options, resolves
    with a response whose text can be read, the call returns what the
    dispatcher of the options makes of that response. *)
Definition deliversTo (fetch : string -> RequestInit -> Completion FetchResponse)
  (method : HttpMethod) {D}
  (call : string -> RequestOptions D -> Effect (ResponseVariant D) BoundaryError) : Prop :=
  forall path options response text,
    fetch (reqUrl (requestInit method path options))
      (mkRequestInit method (optHeaders options) (optBody options) (optSignal options)) =
      Normal response ->
    responseText response = Normal text ->
    call path options =
    dispatcher options
      (mkRawResponse (responseStatus response) (responseHeaders response) text).


(** ** Reading back what the client encodes *)

(** Percent-decoding of bytes, as [decodeURIComponent] does it; a percent
    sign that no two hexadecimal digits follow is refused. *)
Fixpoint percentDecode (s : string) : option string :=
  match s with
  | EmptyString => Some EmptyString
  | String c r =>
      if Ascii.eqb c "%" then
        match r with
        | String h (String l r') =>
            hi ← JSON.hexValue h;
            lo ← JSON.hexValue l;
            String (ascii_of_nat (16 * hi + lo)) <$> percentDecode r'
        | _ => None
        end
      else String c <$> percentDecode r
  end.

(** The same for a form-urlencoded component: a plus sign is a space. *)
Fixpoint formUrlDecode (s : string) : option string :=
  match s with
  | EmptyString => Some EmptyString
  | String c r =>
      if Ascii.eqb c "%" then
        match r with
        | String h (String l r') =>
            hi ← JSON.hexValue h;
            lo ← JSON.hexValue l;
            String (ascii_of_nat (16 * hi + lo)) <$> formUrlDecode r'
        | _ => None
        end
      else if Ascii.eqb c "+" then String " " <$> formUrlDecode r
      else String c <$> formUrlDecode r
  end.

(** The pieces of [s] between the occurrences of [sep]. *)
Fixpoint splitOn (sep : ascii) (s : string) : list string :=
  match s with
  | EmptyString => [EmptyString]
  | String c r =>
      if Ascii.eqb c sep then EmptyString :: splitOn sep r
      else match splitOn sep r with
           | piece :: pieces => String c piece :: pieces
           | [] => [String c EmptyString]
           end
  end.

(** [s] cut at the first occurrence of [sep]; without one, all of [s] and
    the empty string. *)
Fixpoint splitFirst (sep : ascii) (s : string) : string * string :=
  match s with
  | EmptyString => (EmptyString, EmptyString)
  | String c r =>
      if Ascii.eqb c sep then (EmptyString, r)
      else let '(before, after) := splitFirst sep r in (String c before, after)
  end.

(** How a query string is read back (the parser of [URLSearchParams]): the
    non-empty pieces between ampersands, each cut at its first equals sign,
    name and value decoded. *)
Definition parseQuery (qs : string) : option (list (string * string)) :=
  mapM (fun piece =>
          let '(k, v) := splitFirst "=" piece in
          name ← formUrlDecode k;
          value ← formUrlDecode v;
          Some (name, value))
    (filter (fun piece => piece ≠ "") (splitOn "&" qs)).

(** ** The classifier among mutable state *)

(** The same generated dispatcher, read with [JSON.parse] and the decoders as
    computations that may consult and change mutable state of the program
    (the source marks [parseJSON], the decoders and the dispatcher as not
    pure): each takes the state it finds and returns the state it leaves. The
    code of the dispatcher has no variable of its own outside its arguments:
    it hands the state from one call to the next. *)
Section InAWorld.

Context {World : Type}.
Context (JSON_parse : string -> World -> Completion Json * World).
Context {D : Type}.
Context (decoders : Z -> string -> Z -> string -> string -> Json -> World ->
                    Effect D DecodeError * World).





End InAWorld.




(** ** A platform for the examples *)

(** A platform whose requests are the record of the calls that built them. *)
Inductive PlatformCall :=
| CallMake (method : HttpMethod) (url : string)
| CallSetHeaders (headers : list (string * string))
| CallSetBody (text : string).

#[global] Instance recordingPlatform : Platform := {|
  HttpClientRequest := list PlatformCall;
  HttpBody := string;
  HttpClientRequest_get := fun url => [CallMake GET url];
  HttpClientRequest_post := fun url => [CallMake POST url];
  HttpClientRequest_put := fun url => [CallMake PUT url];
  HttpClientRequest_patch := fun url => [CallMake PATCH url];
  HttpClientRequest_del := fun url => [CallMake DELETE url];
  HttpClientRequest_head := fun url => [CallMake HEAD url];
  HttpClientRequest_options := fun url => [CallMake OPTIONS url];
  HttpClientRequest_setHeaders := fun request headers => request ++ [CallSetHeaders headers];
  HttpClientRequest_setBody := fun request body => request ++ [CallSetBody body];
  HttpBody_text := fun text => text
|}.

(** A client that answers every request with the same response. *)
Definition mockClient {request : Type} (response : HttpClientResponse)
  : request -> Exit HttpClientResponse Thrown :=
  fun _ => Success response.

(** A response one of whose header names is no token. *)
Definition badHeaderResponse : HttpClientResponse :=
  mkHttpClientResponse 200 [("content-type", "application/json"); ("bad name", "x")]
    (Success "[]").

Definition petsResponse : HttpClientResponse :=
  mkHttpClientResponse 200 [("Content-Type", "application/json")] (Success "[]").

(** A body that [JSON.stringify] refuses (a BigInt64Array, say). *)
Definition refusesObjects : N -> Completion string :=
  fun _ => Throw (TypeError "Do not know how to serialize a BigInt").

(** * Properties *)

(** ** The host primitives on examples *)

Example includes_charset :
  includes "application/json; charset=utf-8" "application/json" = true.
Proof. reflexivity. Qed.

Example replace_first_only :
  replace "/a/{id}/b/{id}" "{id}" "7" = "/a/7/b/{id}".
Proof. reflexivity. Qed.

Example encodeURIComponent_sample :
  encodeURIComponent "a b/c?d" = "a%20b%2Fc%3Fd".
Proof. reflexivity. Qed.

Example URLSearchParams_sample :
  URLSearchParams_toString [("q", "a b"); ("n", String_of (Num 10))] = "q=a+b&n=10".
Proof. vm_compute. reflexivity. Qed.

Example Headers_get_sample :
  Headers_get [("content-type", "text/html"); ("x-a", "1")] "Content-Type" = Some "text/html".
Proof. reflexivity. Qed.

Example JSON_parse_pets :
  JSON.parse (jsonText "[{'id':'1'}]") = Normal (JArray [JObject [("id", JString "1")]]).
Proof. vm_compute. reflexivity. Qed.

Example JSON_parse_malformed :
  JSON.parse (jsonText "{'bad': json}") = Throw JSON.SyntaxError.
Proof. vm_compute. reflexivity. Qed.

Example JSON_parse_nested :
  JSON.parse (jsonText " { 'a' : [1, -2.5e3, true, null], 'b': 'x\ny' } ")
  = Normal (JObject [("a", JArray [JNumber "1"; JNumber "-2.5e3"; JBool true; JNull]);
                     ("b", JString (String "x" (String (ascii_of_nat 10) "y")))]).
Proof. vm_compute. reflexivity. Qed.

(** ** The petstore dispatchers on the scenarios of the specification *)

(** Scenario A: status 204, empty body, no content declared. *)
Example scenario_A :
  Switch.dispatcherdeletePet JSON.parse (mkRawResponse 204 [] "") =
  Succeed (mkResponseVariant 204 "none" Undefined).
Proof. reflexivity. Qed.

(** Scenario B: status 200, application/json, a list of pets. *)
Example scenario_B :
  Switch.dispatcherlistPets JSON.parse petsPlain =
  Succeed (mkResponseVariant 200 "application/json"
             (Decoded (JArray [JObject [("id", JString "1")]]))).
Proof. vm_compute. reflexivity. Qed.

(** Scenario C: status 418, declared nowhere. *)
Example scenario_C :
  Switch.dispatcherlistPets JSON.parse teapot =
  Fail (isUnexpectedStatus (mkUnexpectedStatus 418 "I'm a teapot")).
Proof. vm_compute. reflexivity. Qed.

(** Scenario D: status 200 with text/html. *)
Example scenario_D :
  Switch.dispatcherlistPets JSON.parse scenarioD =
  Fail (isUnexpectedContentType
          (mkUnexpectedContentType 200 ["application/json"] (Some "text/html")
             "<html><body>Hello</body></html>")).
Proof. vm_compute. reflexivity. Qed.

(** Scenario E: a malformed body. *)
Example scenario_E :
  _tag_of_failure (App.dispatcherlistPets JSON.parse malformed) = Some "ParseError".
Proof. vm_compute. reflexivity. Qed.

(** A declared error status comes back on the success channel, as the tests
    of the dispatchers expect ([Right] for status 500). *)
Example declared_500_is_returned :
  Switch.dispatcherlistPets JSON.parse
    (mkRawResponse 500 [("content-type", "application/json")] (jsonText "{'code':500}")) =
  Succeed (mkResponseVariant 500 "application/json"
             (Decoded (JObject [("code", JNumber "500")]))).
Proof. vm_compute. reflexivity. Qed.

(** ** Strings: occurrences and replacement *)

Lemma append_cons c (a b : string) : String c a +:+ b = String c (a +:+ b).
Proof. reflexivity. Qed.

Lemma append_nil_l (b : string) : "" +:+ b = b.
Proof. reflexivity. Qed.

Lemma append_assoc (a b c : string) : (a +:+ b) +:+ c = a +:+ (b +:+ c).
Proof.
  induction a as [|x a IH]; [reflexivity|].
  rewrite !append_cons, IH. reflexivity.
Qed.

Lemma append_nil_r (a : string) : a +:+ "" = a.
Proof.
  induction a as [|x a IH]; [reflexivity|].
  rewrite append_cons, IH. reflexivity.
Qed.

Lemma startsWith_spec s pat :
  startsWith s pat = true <-> exists post, s = pat +:+ post.
Proof.
  revert s. induction pat as [|p pat IH]; intros s; simpl.
  - split; [intros _; exists s; reflexivity | reflexivity].
  - destruct s as [|c s].
    + split; [discriminate | intros [post H]; discriminate].
    + destruct (Ascii.eqb_spec p c) as [->|Hne].
      * rewrite IH. split; intros [post H]; exists post.
        -- rewrite append_cons. congruence.
        -- rewrite append_cons in H. congruence.
      * split; [discriminate | intros [post H]; rewrite append_cons in H; congruence].
Qed.

Lemma startsWith_occurs s pat : startsWith s pat = true -> occursIn pat s.
Proof. intros [post ->]%startsWith_spec. exists "", post. reflexivity. Qed.

Lemma occurs_cons c s pat : occursIn pat s -> occursIn pat (String c s).
Proof. intros (pre & post & ->). exists (String c pre), post. reflexivity. Qed.

Lemma occurs_inv c s pat :
  occursIn pat (String c s) -> startsWith (String c s) pat = true \/ occursIn pat s.
Proof.
  intros (pre & post & H). destruct pre as [|x pre].
  - left. apply startsWith_spec. exists post. exact H.
  - right. rewrite append_cons in H. injection H as _ ->. exists pre, post. reflexivity.
Qed.

Lemma indexOf_Some_occurs s pat i : indexOf s pat = Some i -> occursIn pat s.
Proof.
  revert i. induction s as [|c s IH]; intros i; simpl.
  - destruct (startsWith "" pat) eqn:E; [|discriminate].
    intros _. apply startsWith_occurs, E.
  - destruct (startsWith (String c s) pat) eqn:E.
    + intros _. apply startsWith_occurs, E.
    + destruct (indexOf s pat) as [j|]; [|discriminate].
      intros _. apply occurs_cons, (IH j). reflexivity.
Qed.

Lemma indexOf_None_occurs s pat : indexOf s pat = None -> ~ occursIn pat s.
Proof.
  induction s as [|c s IH]; simpl.
  - destruct (startsWith "" pat) eqn:E; [discriminate|].
    intros _ (pre & post & H). destruct pre; [|discriminate].
    assert (startsWith "" pat = true) by (apply startsWith_spec; eauto).
    congruence.
  - destruct (startsWith (String c s) pat) eqn:E; [discriminate|].
    destruct (indexOf s pat) as [j|]; [discriminate|].
    intros _ [H|H]%occurs_inv; [congruence|].
    exact (IH eq_refl H).
Qed.

(** [includes] is the substring test, byte for byte. *)
Lemma includes_spec s pat : includes s pat = true <-> occursIn pat s.
Proof.
  unfold includes. destruct (indexOf s pat) as [i|] eqn:E.
  - split; [|reflexivity]. intros _. exact (indexOf_Some_occurs _ _ _ E).
  - split; [discriminate|]. intros H. destruct (indexOf_None_occurs _ _ E H).
Qed.

(** Expansion of a replacement text without a dollar sign is the text. *)
Lemma getSubstitution_noDollar matched before after rep :
  noDollar rep = true -> getSubstitution matched before after rep = rep.
Proof.
  unfold noDollar. induction rep as [|c rep IH]; simpl; [reflexivity|].
  intros [Hc Hrep]%andb_prop.
  destruct (Ascii.eqb c "$"); [discriminate|].
  rewrite IH by exact Hrep. reflexivity.
Qed.

Lemma percentByte_shape c rest :
  exists hi lo,
    percentByte c rest = String "%" (String hi (String lo rest)) /\
    isOneOf hexChars hi = true /\ isOneOf hexChars lo = true.
Proof.
  exists (hexDigit (nat_of_ascii c / 16)), (hexDigit (nat_of_ascii c mod 16)).
  split; [reflexivity|].
  destruct c as [[] [] [] [] [] [] [] []]; vm_compute; split; reflexivity.
Qed.

Lemma hexChar_noDollar c : isOneOf hexChars c = true -> Ascii.eqb c "$" = false.
Proof.
  destruct (Ascii.eqb_spec c "$") as [->|]; [vm_compute; discriminate | reflexivity].
Qed.

Lemma uriUnreserved_noDollar c : uriUnreserved c = true -> Ascii.eqb c "$" = false.
Proof.
  destruct (Ascii.eqb_spec c "$") as [->|]; [vm_compute; discriminate | reflexivity].
Qed.

Lemma encodeURIComponent_noDollar s : noDollar (encodeURIComponent s) = true.
Proof.
  unfold noDollar. induction s as [|c s IH]; [reflexivity|]. simpl.
  destruct (uriUnreserved c) eqn:E.
  - simpl. rewrite (uriUnreserved_noDollar _ E), IH. reflexivity.
  - destruct (percentByte_shape c (encodeURIComponent s)) as (hi & lo & -> & Hhi & Hlo).
    simpl. rewrite (hexChar_noDollar _ Hhi), (hexChar_noDollar _ Hlo), IH. reflexivity.
Qed.

(** The value [encodeURIComponent] returns is percent-encoded. *)
Lemma encodeURIComponent_PercentEncoded s :
  PercentEncoded uriUnreserved (encodeURIComponent s).
Proof.
  induction s as [|c s IH]; simpl; [constructor|].
  destruct (uriUnreserved c) eqn:E.
  - apply pe_safe; assumption.
  - destruct (percentByte_shape c (encodeURIComponent s)) as (hi & lo & -> & Hhi & Hlo).
    apply pe_escape; assumption.
Qed.

Lemma formUrlEncode_PercentEncoded s : PercentEncoded formSafe (formUrlEncode s).
Proof.
  induction s as [|c s IH]; simpl; [constructor|].
  destruct (Ascii.eqb c " ") eqn:Esp.
  - apply pe_safe; [reflexivity | assumption].
  - destruct (isAlphaNum c || isOneOf "*-._" c) eqn:E.
    + apply pe_safe; [|assumption]. unfold formSafe.
      apply orb_true_iff in E as [->|E]; [reflexivity|].
      apply orb_true_iff. right. revert E. unfold isOneOf. simpl.
      rewrite !orb_false_r. intros E.
      repeat (apply orb_true_iff in E as [->|E]; [rewrite ?orb_true_r; reflexivity|]).
      rewrite E, ?orb_true_r. reflexivity.
    + destruct (percentByte_shape c (formUrlEncode s)) as (hi & lo & -> & Hhi & Hlo).
      apply pe_escape; assumption.
Qed.

(** With a replacement text free of dollar signs, [replace] substitutes the
    first occurrence and nothing else. *)
Lemma replace_substituteFirst s pat rep :
  noDollar rep = true -> replace s pat rep = substituteFirst s pat rep.
Proof.
  intros Hrep. unfold replace.
  induction s as [|c s IH]; simpl.
  - destruct (startsWith "" pat) eqn:E; simpl.
    + rewrite getSubstitution_noDollar by exact Hrep. reflexivity.
    + reflexivity.
  - destruct (startsWith (String c s) pat) eqn:E; simpl.
    + rewrite getSubstitution_noDollar by exact Hrep. reflexivity.
    + destruct (indexOf s pat) as [i|] eqn:Ei; simpl.
      * rewrite getSubstitution_noDollar in * by exact Hrep.
        rewrite append_cons. f_equal. exact IH.
      * f_equal. exact IH.
Qed.

Lemma substituteFirst_absent s pat rep :
  ~ occursIn pat s -> substituteFirst s pat rep = s.
Proof.
  induction s as [|c s IH]; intros Habs; simpl.
  - destruct (startsWith "" pat) eqn:E; [|reflexivity].
    destruct Habs. apply startsWith_occurs, E.
  - destruct (startsWith (String c s) pat) eqn:E.
    + destruct Habs. apply startsWith_occurs, E.
    + rewrite IH; [reflexivity|]. intros H. apply Habs, occurs_cons, H.
Qed.

Lemma drop_string_append (a b : string) : drop_string (String.length a) (a +:+ b) = b.
Proof.
  induction a as [|x a IH]; simpl; [destruct b; reflexivity|].
  rewrite ?append_cons. exact IH.
Qed.

(** Where [pat] first occurs after the prefix [pre], that occurrence is the
    one substituted. *)
Lemma substituteFirst_present pre pat post rep :
  indexOf (pre +:+ pat +:+ post) pat = Some (String.length pre) ->
  substituteFirst (pre +:+ pat +:+ post) pat rep = pre +:+ rep +:+ post.
Proof.
  induction pre as [|c pre IH]; intros Hidx.
  - rewrite !append_nil_l in *.
    assert (E : startsWith (pat +:+ post) pat = true) by (apply startsWith_spec; eauto).
    destruct (pat +:+ post) as [|x s] eqn:Es; simpl; rewrite E;
      rewrite <- Es, drop_string_append; reflexivity.
  - rewrite !append_cons in *. simpl in *.
    destruct (startsWith (String c (pre +:+ pat +:+ post)) pat) eqn:E; [discriminate|].
    destruct (indexOf (pre +:+ pat +:+ post) pat) as [i|] eqn:Ei; [|discriminate].
    simpl in Hidx. injection Hidx as ->.
    rewrite IH by reflexivity. reflexivity.
Qed.

(** ** The classifier *)

Section ClassifierFacts.

Context (JSON_parse : string -> Completion Json).
Context {D : Type}.
Context (decoders : Z -> string -> Decoder D).

(** The chain of [if] blocks runs the block of the first content type whose
    condition holds. *)
Lemma ctCases_matched status contentType text cts otherwise :
  ctCases JSON_parse decoders status contentType text cts otherwise =
  match matchedContentType cts contentType with
  | Some ct =>
      let* parsed := Effect_mapError (parseJSON JSON_parse status ct text) isParseError in
      let* decoded :=
        Effect_mapError (decoders status ct status ct text parsed) isDecodeError in
      Succeed (mkResponseVariant status ct (Decoded decoded))
  | None => otherwise
  end.
Proof.
  unfold matchedContentType.
  induction cts as [|ct cts IH]; simpl; [reflexivity|].
  destruct (ctCheck ct contentType); [reflexivity|exact IH].
Qed.

Lemma generatedDispatcher_unfold responses r :
  generatedDispatcher JSON_parse decoders responses r =
  match responses !! status r with
  | Some response => statusHandler JSON_parse decoders (status r) response (contentTypeOf r) (text r)
  | None => Fail (isUnexpectedStatus (mkUnexpectedStatus (status r) (text r)))
  end.
Proof. reflexivity. Qed.

Lemma statusHandler_no_body status response contentType text :
  contentTypes response = [] ->
  statusHandler JSON_parse decoders status response contentType text =
  Succeed (mkResponseVariant status "none" Undefined).
Proof. unfold statusHandler. intros ->. reflexivity. Qed.

Lemma statusHandler_body status response contentType text :
  contentTypes response <> [] ->
  statusHandler JSON_parse decoders status response contentType text =
  match matchedContentType (contentTypes response) contentType with
  | Some ct =>
      let* parsed := Effect_mapError (parseJSON JSON_parse status ct text) isParseError in
      let* decoded :=
        Effect_mapError (decoders status ct status ct text parsed) isDecodeError in
      Succeed (mkResponseVariant status ct (Decoded decoded))
  | None =>
      Fail (isUnexpectedContentType
              (mkUnexpectedContentType status (contentTypes response) contentType text))
  end.
Proof.
  unfold statusHandler. intros Hne.
  destruct (contentTypes response) as [|ct cts] eqn:E; [congruence|].
  apply ctCases_matched.
Qed.

Lemma Check_generatedDispatcher responses r :
  exists tag, Check JSON_parse decoders responses r tag
                (generatedDispatcher JSON_parse decoders responses r).
Proof.
  rewrite generatedDispatcher_unfold.
  destruct (responses !! status r) as [response|] eqn:Hlookup.
  - destruct (contentTypes response) as [|ct0 cts] eqn:Hcts.
    + rewrite statusHandler_no_body by assumption.
      eexists. eapply check_no_body; eassumption.
    + assert (Hne : contentTypes response <> []) by (rewrite Hcts; discriminate).
      rewrite statusHandler_body by assumption.
      destruct (matchedContentType (contentTypes response) (contentTypeOf r))
        as [ct|] eqn:Hmatch.
      * unfold parseJSON.
        destruct (JSON_parse (text r)) as [parsed|error] eqn:Hparse; simpl.
        -- destruct (decoders (status r) ct (status r) ct (text r) parsed) as [d|e] eqn:Hdec;
             simpl; eexists.
           ++ eapply check_tag; eassumption.
           ++ eapply check_decode; eassumption.
        -- eexists. eapply check_parse; eassumption.
      * eexists. eapply check_content_type; eassumption.
  - eexists. apply check_status. assumption.
Qed.

Lemma Check_functional responses r tag1 o1 tag2 o2 :
  Check JSON_parse decoders responses r tag1 o1 ->
  Check JSON_parse decoders responses r tag2 o2 ->
  tag1 = tag2 /\ o1 = o2.
Proof.
  intros H1 H2.
  destruct H1; destruct H2;
    repeat match goal with
      | Ha : ?x = _, Hb : ?x = _ |- _ => rewrite Ha in Hb; inversion Hb; subst; clear Hb
      | Ha : contentTypes ?x = [], Hb : context [contentTypes ?x] |- _ => rewrite Ha in Hb
      end;
    try discriminate; try contradiction; split; reflexivity.
Qed.

Lemma Check_outcomeTag responses r tag o :
  Check JSON_parse decoders responses r tag o -> tag = outcomeTag o.
Proof. destruct 1; reflexivity. Qed.

End ClassifierFacts.

(** ** The petstore dispatchers are what the generator emits *)

Ltac lookup_responses :=
  repeat first
    [ rewrite lookup_insert_eq
    | rewrite lookup_insert_ne by congruence
    | rewrite lookup_singleton_eq
    | rewrite lookup_singleton_ne by congruence ].

Ltac by_status r :=
  destruct r as [status headers text];
  unfold generatedDispatcher, createDispatcher; simpl;
  repeat match goal with
    | |- context [?s =? ?k] =>
        destruct (Z.eqb_spec s k) as [->|?]; [lookup_responses; reflexivity|]
    end;
  lookup_responses; reflexivity.

Section Petstore.

Context (JSON_parse : string -> Completion Json).

Lemma Switch_listPets_generated r :
  Switch.dispatcherlistPets JSON_parse r =
  generatedDispatcher JSON_parse stubDecoders listPets_responses r.
Proof. unfold Switch.dispatcherlistPets, listPets_responses. by_status r. Qed.

Lemma Switch_createPet_generated r :
  Switch.dispatchercreatePet JSON_parse r =
  generatedDispatcher JSON_parse stubDecoders createPet_responses r.
Proof. unfold Switch.dispatchercreatePet, createPet_responses. by_status r. Qed.

Lemma Switch_getPet_generated r :
  Switch.dispatchergetPet JSON_parse r =
  generatedDispatcher JSON_parse stubDecoders getPet_responses r.
Proof. unfold Switch.dispatchergetPet, getPet_responses. by_status r. Qed.

Lemma Switch_deletePet_generated r :
  Switch.dispatcherdeletePet JSON_parse r =
  generatedDispatcher JSON_parse stubDecoders deletePet_responses r.
Proof. unfold Switch.dispatcherdeletePet, deletePet_responses. by_status r. Qed.

Ltac by_match r :=
  destruct r as [status headers text];
  unfold createDispatcher, Match_value, Match_when, Match_orElse; simpl;
  repeat match goal with
    | |- context [?s =? ?k] => destruct (Z.eqb_spec s k) as [->|?]; [reflexivity|]
    end;
  reflexivity.

Lemma App_listPets_Switch r :
  App.dispatcherlistPets JSON_parse r = Switch.dispatcherlistPets JSON_parse r.
Proof. unfold App.dispatcherlistPets, Switch.dispatcherlistPets. by_match r. Qed.

Lemma App_createPet_Switch r :
  App.dispatchercreatePet JSON_parse r = Switch.dispatchercreatePet JSON_parse r.
Proof. unfold App.dispatchercreatePet, Switch.dispatchercreatePet. by_match r. Qed.

Lemma App_getPet_Switch r :
  App.dispatchergetPet JSON_parse r = Switch.dispatchergetPet JSON_parse r.
Proof. unfold App.dispatchergetPet, Switch.dispatchergetPet. by_match r. Qed.

Lemma App_deletePet_Switch r :
  App.dispatcherdeletePet JSON_parse r = Switch.dispatcherdeletePet JSON_parse r.
Proof. unfold App.dispatcherdeletePet, Switch.dispatcherdeletePet. by_match r. Qed.

End Petstore.

(** ** Content-type match *)

Lemma ctCheck_accepts ct contentType :
  ctCheck ct contentType = true <-> accepts ct contentType.
Proof.
  unfold ctCheck, accepts.
  destruct (bool_decide (ct = "application/json")) eqn:Ejson.
  - destruct contentType as [c|]; simpl.
    + rewrite includes_spec. split.
      * intros H. exists c. split; [reflexivity | exact H].
      * intros (c' & [= <-] & H). exact H.
    + split; [discriminate | intros (c' & [=] & _)].
  - rewrite bool_decide_eq_true. split.
    + intros ->. exists ct. split; reflexivity.
    + intros (c & -> & ->). reflexivity.
Qed.

Lemma matchedContentType_None cts contentType :
  matchedContentType cts contentType = None <->
  forall ct, ct ∈ cts -> ~ accepts ct contentType.
Proof.
  unfold matchedContentType. split.
  - intros H ct Hin Hacc. apply list_elem_of_In in Hin.
    pose proof (find_none _ _ H ct Hin) as Hf. simpl in Hf.
    apply ctCheck_accepts in Hacc. congruence.
  - intros H. destruct (List.find _ cts) as [ct|] eqn:E; [|reflexivity].
    apply find_some in E as [Hin Hc].
    destruct (H ct); [apply list_elem_of_In, Hin | apply ctCheck_accepts, Hc].
Qed.

Lemma matchedContentType_elem cts contentType ct :
  matchedContentType cts contentType = Some ct -> ct ∈ cts.
Proof.
  unfold matchedContentType. intros H.
  apply find_some in H as [H _]. apply list_elem_of_In, H.
Qed.

Section ClaimFacts.

Context (JSON_parse : string -> Completion Json).
Context {D : Type}.
Context (decoders : Z -> string -> Decoder D).
Context (responses : Responses).

Lemma generated_unknown_status r :
  responses !! status r = None ->
  generatedDispatcher JSON_parse decoders responses r =
  Fail (isUnexpectedStatus (mkUnexpectedStatus (status r) (text r))).
Proof. intros H. rewrite generatedDispatcher_unfold, H. reflexivity. Qed.

Lemma generated_content_type_mismatch r response :
  responses !! status r = Some response ->
  contentTypes response <> [] ->
  matchedContentType (contentTypes response) (contentTypeOf r) = None ->
  generatedDispatcher JSON_parse decoders responses r =
  Fail (isUnexpectedContentType
          (mkUnexpectedContentType (status r) (contentTypes response)
             (contentTypeOf r) (text r))).
Proof.
  intros Hl Hne Hm.
  rewrite generatedDispatcher_unfold, Hl, statusHandler_body, Hm by exact Hne.
  reflexivity.
Qed.

Lemma generated_matched r response ct :
  responses !! status r = Some response ->
  matchedContentType (contentTypes response) (contentTypeOf r) = Some ct ->
  generatedDispatcher JSON_parse decoders responses r =
  let* parsed :=
    Effect_mapError (parseJSON JSON_parse (status r) ct (text r)) isParseError in
  let* decoded :=
    Effect_mapError (decoders (status r) ct (status r) ct (text r) parsed) isDecodeError in
  Succeed (mkResponseVariant (status r) ct (Decoded decoded)).
Proof.
  intros Hl Hm.
  assert (Hne : contentTypes response <> []).
  { intros E. rewrite E in Hm. discriminate. }
  rewrite generatedDispatcher_unfold, Hl, statusHandler_body, Hm by exact Hne.
  reflexivity.
Qed.

(** An [UnexpectedContentType] comes from the content-type check only. *)
Lemma generated_unexpectedContentType_inv r e :
  generatedDispatcher JSON_parse decoders responses r =
    Fail (isUnexpectedContentType e) ->
  exists response,
    responses !! status r = Some response /\
    contentTypes response <> [] /\
    matchedContentType (contentTypes response) (contentTypeOf r) = None /\
    e = mkUnexpectedContentType (status r) (contentTypes response)
          (contentTypeOf r) (text r).
Proof.
  intros H.
  destruct (Check_generatedDispatcher JSON_parse decoders responses r) as [tag HC].
  rewrite H in HC. inversion HC; subst.
  exists response. repeat split; assumption.
Qed.

End ClaimFacts.

(** ** The claims *)

(** C1. For every raw response (any status, any headers, any body) and every
    table of responses, the classifier produces exactly one outcome variant:
    the checks of its decision sequence are exhaustive (one of them decides
    the outcome the dispatcher returns) and mutually exclusive (no other tag
    and no other outcome can be decided for the same response). *)
Theorem classifier_exactly_one_outcome
  (JSON_parse : string -> Completion Json) (D : Type)
  (decoders : Z -> string -> Decoder D) (responses : Responses) (r : RawResponse) :
  Check JSON_parse decoders responses r
    (outcomeTag (generatedDispatcher JSON_parse decoders responses r))
    (generatedDispatcher JSON_parse decoders responses r) /\
  (forall tag outcome,
     Check JSON_parse decoders responses r tag outcome ->
     tag = outcomeTag (generatedDispatcher JSON_parse decoders responses r) /\
     outcome = generatedDispatcher JSON_parse decoders responses r).
Proof.
  destruct (Check_generatedDispatcher JSON_parse decoders responses r) as [tag0 H0].
  pose proof (Check_outcomeTag _ _ _ _ _ _ H0) as Htag. subst tag0.
  split; [exact H0|].
  intros tag outcome H. exact (Check_functional _ _ _ _ _ _ _ _ H H0).
Qed.

Lemma classifier_exactly_one_outcome_witness :
  Check JSON.parse stubDecoders listPets_responses teapot UnexpectedStatusTag
    (Switch.dispatcherlistPets JSON.parse teapot).
Proof.
  rewrite Switch_listPets_generated.
  exact (proj1 (classifier_exactly_one_outcome JSON.parse Json stubDecoders
                  listPets_responses teapot)).
Defined.

(** C2, as amended. Unknown status has priority over everything: a response
    whose status is no key of the table is an [UnexpectedStatus], whatever
    its headers, whatever [JSON.parse] and the decoders would do. For a
    declared status that declares at least one content type, a header value
    that none of them accepts gives [UnexpectedContentType], whatever the
    body would parse or decode to. *)
Theorem classifier_priority
  (JSON_parse : string -> Completion Json) (D : Type)
  (decoders : Z -> string -> Decoder D) (responses : Responses) (r : RawResponse) :
  (responses !! status r = None ->
   generatedDispatcher JSON_parse decoders responses r =
   Fail (isUnexpectedStatus (mkUnexpectedStatus (status r) (text r)))) /\
  (forall response,
     responses !! status r = Some response ->
     contentTypes response <> [] ->
     matchedContentType (contentTypes response) (contentTypeOf r) = None ->
     generatedDispatcher JSON_parse decoders responses r =
     Fail (isUnexpectedContentType
             (mkUnexpectedContentType (status r) (contentTypes response)
                (contentTypeOf r) (text r)))).
Proof.
  split.
  - apply generated_unknown_status.
  - intros response. apply generated_content_type_mismatch.
Qed.

Lemma classifier_priority_witness :
  generatedDispatcher JSON.parse stubDecoders listPets_responses teapot =
    Fail (isUnexpectedStatus (mkUnexpectedStatus 418 "I'm a teapot")) /\
  generatedDispatcher JSON.parse stubDecoders listPets_responses htmlFor200 =
    Fail (isUnexpectedContentType
            (mkUnexpectedContentType 200 ["application/json"] (Some "text/html") "[]")).
Proof.
  split.
  - apply (proj1 (classifier_priority JSON.parse Json stubDecoders
                    listPets_responses teapot)).
    vm_compute. reflexivity.
  - apply (proj2 (classifier_priority JSON.parse Json stubDecoders
                    listPets_responses htmlFor200) jsonResponse).
    + vm_compute. reflexivity.
    + discriminate.
    + vm_compute. reflexivity.
Defined.

(** C2, as stated, fails for a declared status without content: status 204
    of deletePet is declared, the header value text/html is accepted by no
    declared content type, and the outcome is the success variant, not an
    [UnexpectedContentType]. *)
Lemma no_content_status_skips_content_type :
  deletePet_responses !! status htmlFor204 = Some emptyResponse /\
  matchedContentType (contentTypes emptyResponse) (contentTypeOf htmlFor204) = None /\
  Switch.dispatcherdeletePet JSON.parse htmlFor204 =
    Succeed (mkResponseVariant 204 "none" Undefined) /\
  App.dispatcherdeletePet JSON.parse htmlFor204 =
    Succeed (mkResponseVariant 204 "none" Undefined) /\
  outcomeTag (Switch.dispatcherdeletePet JSON.parse htmlFor204) <> UnexpectedContentTypeTag.
Proof. vm_compute. repeat split; discriminate. Qed.

Lemma includes_prefix (ct rest : string) : includes (ct +:+ rest) ct = true.
Proof. apply includes_spec. exists "", rest. rewrite append_nil_l. reflexivity. Qed.

Lemma accepts_other ct contentType :
  ct <> "application/json" -> (accepts ct contentType <-> contentType = Some ct).
Proof.
  intros Hne. unfold accepts.
  rewrite bool_decide_eq_false_2 by exact Hne. split.
  - intros (c & -> & ->). reflexivity.
  - intros ->. exists ct. split; reflexivity.
Qed.

Lemma accepts_occurs ct c : accepts ct (Some c) -> occursIn ct c.
Proof.
  unfold accepts. intros (c' & [= <-] & H).
  destruct (bool_decide_reflect (ct = "application/json")) as [->|_].
  - exact H.
  - subst c. exists "", "". rewrite append_nil_l, append_nil_r. reflexivity.
Qed.

(** C3, as amended. For a declared status with declared content types, the
    header value is compared byte for byte and no case is folded:
    - when application/json is declared, a header value made of
      application/json alone, or followed by a semicolon and parameters,
      matches a declared content type, and the outcome is that of the parse
      and decode steps;
    - when application/json is not declared, a declared content type
      matches only the header value equal to it;
    - a header value in which no declared content type occurs as it is
      written (the same type in other case, for one) matches nothing, and the
      outcome is an [UnexpectedContentType]. *)
Theorem content_type_match_is_bytewise
  (JSON_parse : string -> Completion Json) (D : Type)
  (decoders : Z -> string -> Decoder D) (responses : Responses)
  (r : RawResponse) (response : ResponseSpec) :
  responses !! status r = Some response ->
  contentTypes response <> [] ->
  (forall params,
     "application/json" ∈ contentTypes response ->
     params = "" \/ startsWith params ";" = true ->
     contentTypeOf r = Some ("application/json" +:+ params) ->
     exists ct,
       ct ∈ contentTypes response /\
       generatedDispatcher JSON_parse decoders responses r =
       let* parsed :=
         Effect_mapError (parseJSON JSON_parse (status r) ct (text r)) isParseError in
       let* decoded :=
         Effect_mapError (decoders (status r) ct (status r) ct (text r) parsed)
           isDecodeError in
       Succeed (mkResponseVariant (status r) ct (Decoded decoded))) /\
  ("application/json" ∉ contentTypes response ->
   ((exists e, generatedDispatcher JSON_parse decoders responses r =
                 Fail (isUnexpectedContentType e)) <->
    (forall ct, ct ∈ contentTypes response -> contentTypeOf r <> Some ct))) /\
  ((forall ct c, ct ∈ contentTypes response -> contentTypeOf r = Some c ->
                 ~ occursIn ct c) ->
   generatedDispatcher JSON_parse decoders responses r =
   Fail (isUnexpectedContentType
           (mkUnexpectedContentType (status r) (contentTypes response)
              (contentTypeOf r) (text r)))).
Proof.
  intros Hl Hne. split; [|split].
  - intros params Hin _ Hct.
    destruct (matchedContentType (contentTypes response) (contentTypeOf r))
      as [ct|] eqn:Hm.
    + exists ct. split; [eapply matchedContentType_elem; exact Hm|].
      apply (generated_matched _ _ _ _ _ _ Hl Hm).
    + exfalso. rewrite matchedContentType_None in Hm.
      apply (Hm "application/json" Hin). apply ctCheck_accepts.
      rewrite Hct. unfold ctCheck. simpl. apply includes_prefix.
  - intros Hnj. split.
    + intros [e He] ct Hin Hc.
      apply generated_unexpectedContentType_inv in He as (response' & Hl' & _ & Hm & _).
      assert (response' = response) as -> by congruence.
      rewrite matchedContentType_None in Hm. apply (Hm ct Hin).
      apply accepts_other; [intros ->; contradiction | exact Hc].
    + intros Hnone. eexists.
      apply generated_content_type_mismatch with (response := response); try assumption.
      apply matchedContentType_None. intros ct Hin Hacc.
      apply accepts_other in Hacc; [|intros ->; contradiction].
      exact (Hnone ct Hin Hacc).
  - intros Hnone.
    apply generated_content_type_mismatch; try assumption.
    apply matchedContentType_None. intros ct Hin Hacc.
    destruct (contentTypeOf r) as [c|] eqn:Hc.
    + exact (Hnone ct c Hin eq_refl (accepts_occurs _ _ Hacc)).
    + destruct Hacc as (c & [=] & _).
Qed.

Lemma content_type_match_is_bytewise_witness :
  (exists ct,
     ct ∈ contentTypes jsonResponse /\
     generatedDispatcher JSON.parse stubDecoders listPets_responses charsetJson =
     let* parsed :=
       Effect_mapError (parseJSON JSON.parse (status charsetJson) ct (text charsetJson))
         isParseError in
     let* decoded :=
       Effect_mapError
         (stubDecoders (status charsetJson) ct (status charsetJson) ct (text charsetJson)
            parsed) isDecodeError in
     Succeed (mkResponseVariant (status charsetJson) ct (Decoded decoded))) /\
  generatedDispatcher JSON.parse stubDecoders listPets_responses upperCaseJson =
  Fail (isUnexpectedContentType
          (mkUnexpectedContentType 200 ["application/json"]
             (Some "Application/JSON; charset=utf-8") "[]")).
Proof.
  split.
  - apply (proj1 (content_type_match_is_bytewise JSON.parse Json stubDecoders
                    listPets_responses charsetJson jsonResponse eq_refl
                    ltac:(discriminate)) "; charset=utf-8").
    + apply list_elem_of_here.
    + right. reflexivity.
    + reflexivity.
  - apply (proj2 (proj2 (content_type_match_is_bytewise JSON.parse Json stubDecoders
                           listPets_responses upperCaseJson jsonResponse eq_refl
                           ltac:(discriminate)))).
    intros ct c Hin [= <-] Hocc.
    apply list_elem_of_singleton in Hin as ->.
    apply includes_spec in Hocc. vm_compute in Hocc. discriminate Hocc.
Defined.

(** C3, as stated, fails on the listPets dispatchers: the base media type of
    the header value Application/JSON; charset=utf-8 is application/json up
    to case, and the value is refused. *)
Lemma content_type_match_counterexample :
  toLowerCase (take_string 16 "Application/JSON; charset=utf-8") = "application/json" /\
  Switch.dispatcherlistPets JSON.parse upperCaseJson =
    Fail (isUnexpectedContentType
            (mkUnexpectedContentType 200 ["application/json"]
               (Some "Application/JSON; charset=utf-8") "[]")) /\
  App.dispatcherlistPets JSON.parse upperCaseJson =
    Fail (isUnexpectedContentType
            (mkUnexpectedContentType 200 ["application/json"]
               (Some "Application/JSON; charset=utf-8") "[]")).
Proof. vm_compute. repeat split. Qed.

Example charset_parameter_accepted :
  Switch.dispatcherlistPets JSON.parse charsetJson =
    Succeed (mkResponseVariant 200 "application/json" (Decoded (JArray []))).
Proof. vm_compute. reflexivity. Qed.

(** The same substring test takes application/json-patch+json, a media type
    of its own, for application/json, although the invariant that the
    boundary tests state for the content-type check sends every content type
    outside the declared ones to [UnexpectedContentType]. *)
Example json_patch_taken_for_json :
  Switch.dispatcherlistPets JSON.parse jsonPatch =
    Succeed (mkResponseVariant 200 "application/json" (Decoded (JArray []))) /\
  App.dispatcherlistPets JSON.parse jsonPatch =
    Succeed (mkResponseVariant 200 "application/json" (Decoded (JArray []))).
Proof. vm_compute. repeat split. Qed.

(** ** Success and HTTP-error variants *)

(** Every member of [SuccessVariants] has a status in the range 200 to 299. *)
Lemma SuccessVariants_in_range Rs S CT :
  SuccessVariants Rs S CT = true -> 200 <= S <= 299.
Proof.
  unfold SuccessVariants, extendsSuccessLiterals.
  intros [_ H]%andb_prop. apply bool_decide_eq_true in H.
  repeat (apply elem_of_cons in H as [->|H]; [lia|]).
  inversion H.
Qed.

(** C4, on the code: a declared status 209, or 299, with a body that parses
    and decodes, is returned with its status, content type and decoded body,
    and the filters put that variant in [HttpErrorVariants], not in
    [SuccessVariants]: the literal list of [SuccessVariants] stops short of
    the range 200 to 299. *)
Theorem declared_2xx_outside_literals_is_HttpError :
  generatedDispatcher JSON.parse stubDecoders declares209
    (mkRawResponse 209 [("content-type", "application/json")] "[]") =
    Succeed (mkResponseVariant 209 "application/json" (Decoded (JArray []))) /\
  SuccessVariants declares209 209 "application/json" = false /\
  HttpErrorVariants declares209 209 "application/json" = true /\
  SuccessVariants declares299 299 "application/json" = false /\
  HttpErrorVariants declares299 299 "application/json" = true /\
  variantTag 209 = HttpErrorTag /\ variantTag 299 = HttpErrorTag.
Proof. vm_compute. repeat split. Qed.

(** ** Transport *)

Lemma executeRequest_afterTransport
  (fetch : string -> RequestInit -> Completion FetchResponse)
  (D : Type) (config : StrictRequestInit D) transport :
  Transport fetch config transport ->
  executeRequest fetch config = afterTransport config transport.
Proof.
  intros H. unfold executeRequest, Effect_tryPromise, Effect_try.
  destruct H as [cause Hf|response cause Hf Ht|response text Hf Ht];
    rewrite Hf; simpl; rewrite ?Ht; reflexivity.
Qed.

Lemma Transport_total
  (fetch : string -> RequestInit -> Completion FetchResponse)
  (D : Type) (config : StrictRequestInit D) :
  exists transport, Transport fetch config transport.
Proof.
  destruct (fetch (reqUrl config)
              (mkRequestInit (reqMethod config) (reqHeaders config) (reqBody config)
                 (reqSignal config))) as [response|cause] eqn:Hf.
  - destruct (responseText response) as [text|cause] eqn:Ht.
    + eexists. eapply transport_delivered; eassumption.
    + eexists. eapply transport_body_failed; eassumption.
  - eexists. eapply transport_rejected; eassumption.
Qed.

Lemma platform_afterTransport `{Platform} (JSON_stringify : N -> Completion string)
  (client_execute : HttpClientRequest -> Exit HttpClientResponse Thrown)
  (D : Type) (config : StrictRequestInit D) transport :
  PlatformTransport JSON_stringify client_execute config transport ->
  App.executeRequest JSON_stringify client_execute config =
  afterPlatformTransport config transport.
Proof.
  intros Ht. unfold App.executeRequest.
  destruct Ht;
    repeat match goal with
      | Heq : _ = _ |- _ => rewrite Heq; clear Heq; simpl
      end;
    reflexivity.
Qed.

Lemma PlatformTransport_total `{Platform} (JSON_stringify : N -> Completion string)
  (client_execute : HttpClientRequest -> Exit HttpClientResponse Thrown)
  (D : Type) (config : StrictRequestInit D) :
  exists transport, PlatformTransport JSON_stringify client_execute config transport.
Proof.
  destruct (buildRequest JSON_stringify config) as [request|defect] eqn:Hb.
  - destruct (client_execute request) as [response|cause|defect] eqn:Hf.
    + destruct (platformText response) as [text|cause|defect] eqn:Ht.
      * destruct (toNativeHeaders (platformHeaders response)) as [headers|defect] eqn:Hh.
        -- eexists. eapply platform_delivered; eassumption.
        -- eexists. eapply platform_header_refused; eassumption.
      * eexists. eapply platform_body_failed; eassumption.
      * eexists. eapply platform_body_died; eassumption.
    + eexists. eapply platform_rejected; eassumption.
    + eexists. eapply platform_died; eassumption.
  - eexists. eapply platform_unbuilt; eassumption.
Qed.

(** C5, on the code. Over [fetch], whatever the network does,
    [executeRequest] returns a typed value: a rejected [fetch] or a body that
    cannot be read is a [TransportError] with the cause, a delivered response
    is what the dispatcher makes of it. Over the platform [HttpClient] a
    failure of the client or of the reading of the body is a [TransportError]
    with the cause as well, but [executeRequest] does not always end in an
    outcome or a [TransportError]: when the client delivers a response one of
    whose header names [Headers.prototype.set] refuses, [toNativeHeaders]
    throws in the body of [Effect.gen], and [executeRequest] dies of that
    [TypeError], whatever the request and the dispatcher. *)
Theorem executeRequest_dies_on_refused_header
  (platform : Platform) (JSON_stringify : N -> Completion string)
  (fetch : string -> RequestInit -> Completion FetchResponse)
  (client_execute : HttpClientRequest -> Exit HttpClientResponse Thrown)
  (D : Type) (config : StrictRequestInit D) (body : option string) :
  (exists transport,
     Transport fetch config transport /\
     executeRequest fetch config = afterTransport config transport) /\
  (forall cause,
     PlatformTransport JSON_stringify client_execute config (Failure cause) ->
     App.executeRequest JSON_stringify client_execute config =
     Failure (isTransportError (mkTransportError (toError cause)))) /\
  App.executeRequest JSON_stringify (mockClient badHeaderResponse)
    (mkStrictRequestInit (reqMethod config) (reqUrl config) (reqDispatcher config)
       (reqHeaders config) (BodyString <$> body) (reqSignal config)) =
  Die (TypeError "Invalid header name").
Proof.
  split; [|split].
  - destruct (Transport_total fetch D config) as [transport Ht].
    exists transport. split; [exact Ht | apply executeRequest_afterTransport, Ht].
  - intros cause Ht. rewrite (platform_afterTransport _ _ _ _ _ Ht). reflexivity.
  - unfold App.executeRequest, buildRequest. simpl.
    destruct body; reflexivity.
Qed.

(** The fault is the header's, whatever its place among the others: the
    conversion ends in a [TypeError] as soon as one name is no token. *)
Lemma toNativeHeaders_refuses_name (platformHeaders : list (string * string)) :
  forallb (fun kv => validHeaderName kv.1) platformHeaders = false ->
  exists defect,
    toNativeHeaders platformHeaders = Throw defect /\
    errName (toError defect) = "TypeError".
Proof.
  unfold toNativeHeaders.
  assert (Hthrow : forall defect l,
            foldl (fun headers kv => await headers := headers in
                                     Headers_set headers kv.1 kv.2)
              (Throw defect) l = Throw defect).
  { intros defect l. induction l as [|kv l IH]; simpl; [reflexivity | exact IH]. }
  generalize (@nil (string * string)) as acc.
  induction platformHeaders as [|[k v] l IH]; simpl; intros acc Hf; [discriminate|].
  unfold Headers_set at 2. simpl.
  destruct (validHeaderName k) eqn:Hk; simpl in *.
  - destruct (forallb isHeaderValueByte _); simpl.
    + apply IH, Hf.
    + rewrite Hthrow. eexists. split; reflexivity.
  - rewrite Hthrow. eexists. split; reflexivity.
Qed.

(** The dispatchers never produce a [TransportError]: it is the mark of the
    transport step. *)
Lemma generatedDispatcher_not_TransportError
  (JSON_parse : string -> Completion Json) (D : Type)
  (decoders : Z -> string -> Decoder D) (responses : Responses) (r : RawResponse) :
  outcomeTag (generatedDispatcher JSON_parse decoders responses r) <> TransportErrorTag.
Proof.
  destruct (Check_generatedDispatcher JSON_parse decoders responses r) as [tag H].
  rewrite <- (Check_outcomeTag _ _ _ _ _ _ H).
  destruct H; unfold variantTag; try discriminate;
    destruct (extendsSuccessLiterals _); discriminate.
Qed.



(** C7. For a matched status and content type whose body [JSON.parse]
    rejects, the classifier returns a [ParseError] with that status and
    content type, whose [body] is the text of the response unchanged and
    whose [error] is the [Error] of the rejection. *)
Theorem parse_failure_keeps_raw_body
  (JSON_parse : string -> Completion Json) (D : Type)
  (decoders : Z -> string -> Decoder D) (responses : Responses)
  (r : RawResponse) (response : ResponseSpec) (ct : string) (cause : Thrown) :
  responses !! status r = Some response ->
  matchedContentType (contentTypes response) (contentTypeOf r) = Some ct ->
  JSON_parse (text r) = Throw cause ->
  generatedDispatcher JSON_parse decoders responses r =
  Fail (isParseError (mkParseError (status r) ct (toError cause) (text r))).
Proof.
  intros Hl Hm Hp.
  rewrite (generated_matched _ _ _ _ _ _ Hl Hm).
  unfold parseJSON. rewrite Hp. reflexivity.
Qed.

Lemma parse_failure_keeps_raw_body_witness :
  Switch.dispatcherlistPets JSON.parse malformed =
  Fail (isParseError
          (mkParseError 200 "application/json"
             (mkError "SyntaxError" "Unexpected token in JSON")
             (jsonText "{'bad': json}"))).
Proof.
  rewrite Switch_listPets_generated.
  apply (parse_failure_keeps_raw_body JSON.parse Json stubDecoders listPets_responses
           malformed jsonResponse "application/json" JSON.SyntaxError);
    vm_compute; reflexivity.
Defined.

(** *** Classification among mutable state *)


Section WorldFacts.

Context {World : Type}.
Context (JSON_parse : string -> World -> Completion Json * World).
Context {D : Type}.
Context (decoders : Z -> string -> Z -> string -> string -> Json -> World ->
                    Effect D DecodeError * World).

Hypothesis JSON_parse_reads_no_state :
  forall text w w', (JSON_parse text w).1 = (JSON_parse text w').1.
Hypothesis decoders_read_no_state :
  forall s c status contentType body parsed w w',
    (decoders s c status contentType body parsed w).1 =
    (decoders s c status contentType body parsed w').1.



End WorldFacts.




(** C10. For status 204 the deletePet dispatcher succeeds at once with
    status 204, content type none and an undefined body, whatever the headers
    (content-type included) and whatever the body text: neither the
    content-type check nor [JSON.parse] is consulted. *)
Theorem deletePet_204_succeeds_at_once
  (JSON_parse : string -> Completion Json) (headers : Headers) (text : string) :
  Switch.dispatcherdeletePet JSON_parse (mkRawResponse 204 headers text) =
    Succeed (mkResponseVariant 204 "none" Undefined) /\
  App.dispatcherdeletePet JSON_parse (mkRawResponse 204 headers text) =
    Succeed (mkResponseVariant 204 "none" Undefined).
Proof. split; reflexivity. Qed.

(** ** The URL of a request *)

Lemma foldl_replace_substituteParams url entries :
  foldl (fun url kv => replace url ("{" +:+ kv.1 +:+ "}")
                         (encodeURIComponent (String_of kv.2)))
    url entries = substituteParams url entries.
Proof.
  revert url. induction entries as [|[key value] entries IH]; intros url; simpl.
  - reflexivity.
  - rewrite replace_substituteFirst by apply encodeURIComponent_noDollar.
    apply IH.
Qed.

Lemma foldl_append_entries (acc : URLSearchParams) entries :
  foldl (fun params kv => URLSearchParams_append params kv.1 (String_of kv.2))
    acc entries = acc ++ map (fun kv => (kv.1, String_of kv.2)) entries.
Proof.
  revert acc. induction entries as [|kv entries IH]; intros acc; simpl.
  - rewrite app_nil_r. reflexivity.
  - rewrite IH. unfold URLSearchParams_append. rewrite <- app_assoc. reflexivity.
Qed.

Lemma URLSearchParams_toString_queryString entries :
  URLSearchParams_toString (map (fun kv => (kv.1, String_of kv.2)) entries) =
  queryString entries.
Proof.
  unfold queryString.
  induction entries as [|[k v] entries IH]; [reflexivity|].
  destruct entries as [|kv' entries]; [reflexivity|].
  change (URLSearchParams_toString (map _ ((k, v) :: kv' :: entries)))
    with (formUrlEncode k +:+ "=" +:+ formUrlEncode (String_of v) +:+ "&" +:+
          URLSearchParams_toString (map (fun kv => (kv.1, String_of kv.2)) (kv' :: entries))).
  rewrite IH.
  change (joinWith "&" (map _ ((k, v) :: kv' :: entries)))
    with ((formUrlEncode k +:+ "=" +:+ formUrlEncode (String_of v)) +:+ "&" +:+
          joinWith "&"
            (map (fun kv => formUrlEncode kv.1 +:+ "=" +:+ formUrlEncode (String_of kv.2))
               (kv' :: entries))).
  rewrite !append_assoc. reflexivity.
Qed.

(** C9, as amended. The URL of a request is the base URL followed by the path
    template, in which, for each path parameter in turn, the first occurrence
    of its placeholder (and only the first) has become the percent-encoded
    string form of its value, followed, when query parameters are given, by a
    question mark and the form-urlencoded pairs joined by ampersands. *)
Theorem request_url_in_words (D : Type) (method : HttpMethod) (path : string)
  (options : RequestOptions D) :
  reqUrl (requestInit method path options) =
    urlInWords (baseUrl options) path (params options) (query options) /\
  (forall v, PercentEncoded uriUnreserved (encodeURIComponent v)) /\
  (forall v, PercentEncoded formSafe (formUrlEncode v)) /\
  (forall s pat rep, ~ occursIn pat s -> substituteFirst s pat rep = s) /\
  (forall pre pat post rep,
     indexOf (pre +:+ pat +:+ post) pat = Some (String.length pre) ->
     substituteFirst (pre +:+ pat +:+ post) pat rep = pre +:+ rep +:+ post).
Proof.
  split; [|split; [|split; [|split]]].
  - unfold requestInit, urlInWords. simpl.
    destruct (params options) as [ps|]; destruct (query options) as [qs|]; simpl;
      rewrite ?foldl_replace_substituteParams, ?foldl_append_entries, ?app_nil_l,
        ?URLSearchParams_toString_queryString, ?append_nil_r; reflexivity.
  - apply encodeURIComponent_PercentEncoded.
  - apply formUrlEncode_PercentEncoded.
  - apply substituteFirst_absent.
  - apply substituteFirst_present.
Qed.

Lemma request_url_in_words_witness :
  reqUrl (requestInit GET "/pets/{petId}"
            (getPetOptions (Some [("petId", Str "a b/c")])
               (Some [("limit", Num 10); ("tag", Str "x&y")]))) =
    "https://api.example.com/pets/a%20b%2Fc?limit=10&tag=x%26y" /\
  substituteFirst ("/pets/" +:+ "{petId}" +:+ "/toys") "{petId}" "42" =
    "/pets/" +:+ "42" +:+ "/toys".
Proof.
  split.
  - rewrite (proj1 (request_url_in_words Json GET "/pets/{petId}"
                      (getPetOptions (Some [("petId", Str "a b/c")])
                         (Some [("limit", Num 10); ("tag", Str "x&y")])))).
    vm_compute. reflexivity.
  - apply (proj2 (proj2 (proj2 (proj2
             (request_url_in_words Json GET "" (getPetOptions None None)))))).
    vm_compute. reflexivity.
Defined.

(** C9, as stated, fails for a template that names a placeholder twice: only
    the first occurrence is substituted, the second one stays in the URL. *)
Lemma second_placeholder_not_substituted :
  reqUrl (requestInit GET "/pets/{id}/owners/{id}"
            (getPetOptions (Some [("id", Num 7)]) None)) =
    "https://api.example.com/pets/7/owners/{id}" /\
  includes
    (reqUrl (requestInit GET "/pets/{id}/owners/{id}"
               (getPetOptions (Some [("id", Num 7)]) None)))
    "{id}" = true.
Proof. vm_compute. split; reflexivity. Qed.

(** * Further properties of the code *)

(** ** The committed dispatchers *)

(** X1. The two committed forms of generated/dispatch.ts, the one built on
    [Match] and the one built on [switch], return the same outcome for every
    response, for each of the four operations. *)
Theorem dispatch_forms_agree (JSON_parse : string -> Completion Json) (r : RawResponse) :
  App.dispatcherlistPets JSON_parse r = Switch.dispatcherlistPets JSON_parse r /\
  App.dispatchercreatePet JSON_parse r = Switch.dispatchercreatePet JSON_parse r /\
  App.dispatchergetPet JSON_parse r = Switch.dispatchergetPet JSON_parse r /\
  App.dispatcherdeletePet JSON_parse r = Switch.dispatcherdeletePet JSON_parse r.
Proof.
  repeat split.
  - apply App_listPets_Switch.
  - apply App_createPet_Switch.
  - apply App_getPet_Switch.
  - apply App_deletePet_Switch.
Qed.

(** X2. Each committed petstore dispatcher is the dispatcher that the
    generator emits for the responses of its operation, with the stub
    decoders. *)
Theorem committed_dispatchers_are_generated
  (JSON_parse : string -> Completion Json) (r : RawResponse) :
  Switch.dispatcherlistPets JSON_parse r =
    generatedDispatcher JSON_parse stubDecoders listPets_responses r /\
  Switch.dispatchercreatePet JSON_parse r =
    generatedDispatcher JSON_parse stubDecoders createPet_responses r /\
  Switch.dispatchergetPet JSON_parse r =
    generatedDispatcher JSON_parse stubDecoders getPet_responses r /\
  Switch.dispatcherdeletePet JSON_parse r =
    generatedDispatcher JSON_parse stubDecoders deletePet_responses r.
Proof.
  repeat split.
  - apply Switch_listPets_generated.
  - apply Switch_createPet_generated.
  - apply Switch_getPet_generated.
  - apply Switch_deletePet_generated.
Qed.

Section GeneratedFacts.

Context (JSON_parse : string -> Completion Json).
Context {D : Type}.
Context (decoders : Z -> string -> Decoder D).
Context (responses : Responses).

Lemma generated_unexpectedStatus_iff r :
  _tag_of_failure (generatedDispatcher JSON_parse decoders responses r) =
    Some "UnexpectedStatus" <->
  responses !! status r = None.
Proof.
  destruct (Check_generatedDispatcher JSON_parse decoders responses r) as [tag H].
  destruct H; simpl; split; intros; try congruence; try discriminate; reflexivity.
Qed.

Lemma generated_tag_cases r :
  outcomeTag (generatedDispatcher JSON_parse decoders responses r) ∈
    [SuccessTag; HttpErrorTag; UnexpectedStatusTag; UnexpectedContentTypeTag;
     ParseErrorTag] \/
  exists response ct parsed e,
    responses !! status r = Some response /\
    matchedContentType (contentTypes response) (contentTypeOf r) = Some ct /\
    JSON_parse (text r) = Normal parsed /\
    decoders (status r) ct (status r) ct (text r) parsed = Fail e.
Proof.
  destruct (Check_generatedDispatcher JSON_parse decoders responses r) as [tag H].
  rewrite <- (Check_outcomeTag _ _ _ _ _ _ H).
  destruct H;
    try (left; unfold variantTag; try destruct (extendsSuccessLiterals _);
         repeat first [apply list_elem_of_here | apply list_elem_of_further]; fail).
  right. eauto 10.
Qed.

End GeneratedFacts.

Lemma listPets_lookup_None s : listPets_responses !! s = None <-> s ∉ [200; 500].
Proof.
  unfold listPets_responses.
  rewrite lookup_insert_None, lookup_singleton_None, !not_elem_of_cons.
  pose proof (not_elem_of_nil s). intuition congruence.
Qed.

Lemma createPet_lookup_None s : createPet_responses !! s = None <-> s ∉ [201; 400; 500].
Proof.
  unfold createPet_responses.
  rewrite !lookup_insert_None, lookup_singleton_None, !not_elem_of_cons.
  pose proof (not_elem_of_nil s). intuition congruence.
Qed.

Lemma getPet_lookup_None s : getPet_responses !! s = None <-> s ∉ [200; 404; 500].
Proof.
  unfold getPet_responses.
  rewrite !lookup_insert_None, lookup_singleton_None, !not_elem_of_cons.
  pose proof (not_elem_of_nil s). intuition congruence.
Qed.

Lemma deletePet_lookup_None s : deletePet_responses !! s = None <-> s ∉ [204; 404; 500].
Proof.
  unfold deletePet_responses.
  rewrite !lookup_insert_None, lookup_singleton_None, !not_elem_of_cons.
  pose proof (not_elem_of_nil s). intuition congruence.
Qed.

(** X3. Each petstore dispatcher fails with [UnexpectedStatus] exactly for the
    statuses outside the list it handles: 200 and 500 for listPets; 201, 400
    and 500 for createPet; 200, 404 and 500 for getPet; 204, 404 and 500 for
    deletePet. *)
Theorem handled_statuses (JSON_parse : string -> Completion Json) (r : RawResponse) :
  (_tag_of_failure (Switch.dispatcherlistPets JSON_parse r) = Some "UnexpectedStatus"
   <-> status r ∉ [200; 500]) /\
  (_tag_of_failure (Switch.dispatchercreatePet JSON_parse r) = Some "UnexpectedStatus"
   <-> status r ∉ [201; 400; 500]) /\
  (_tag_of_failure (Switch.dispatchergetPet JSON_parse r) = Some "UnexpectedStatus"
   <-> status r ∉ [200; 404; 500]) /\
  (_tag_of_failure (Switch.dispatcherdeletePet JSON_parse r) = Some "UnexpectedStatus"
   <-> status r ∉ [204; 404; 500]).
Proof.
  rewrite Switch_listPets_generated, Switch_createPet_generated,
    Switch_getPet_generated, Switch_deletePet_generated.
  rewrite !generated_unexpectedStatus_iff.
  rewrite listPets_lookup_None, createPet_lookup_None, getPet_lookup_None,
    deletePet_lookup_None.
  repeat split; auto.
Qed.

Lemma stub_tags responses (JSON_parse : string -> Completion Json) r :
  outcomeTag (generatedDispatcher JSON_parse stubDecoders responses r) ∈
    [SuccessTag; HttpErrorTag; UnexpectedStatusTag; UnexpectedContentTypeTag;
     ParseErrorTag].
Proof.
  destruct (generated_tag_cases JSON_parse stubDecoders responses r)
    as [H|(response & ct & parsed & e & _ & _ & _ & He)]; [exact H|].
  discriminate He.
Qed.

(** X4. With the generated stub decoders no petstore dispatcher ever returns
    a [DecodeError] (nor a [TransportError]): every body that parses is
    accepted. *)
Theorem petstore_never_rejects_a_parsed_body
  (JSON_parse : string -> Completion Json) (r : RawResponse) :
  Forall (fun outcome =>
            outcomeTag outcome ∈
              [SuccessTag; HttpErrorTag; UnexpectedStatusTag; UnexpectedContentTypeTag;
               ParseErrorTag])
    [Switch.dispatcherlistPets JSON_parse r; Switch.dispatchercreatePet JSON_parse r;
     Switch.dispatchergetPet JSON_parse r; Switch.dispatcherdeletePet JSON_parse r].
Proof.
  rewrite Switch_listPets_generated, Switch_createPet_generated,
    Switch_getPet_generated, Switch_deletePet_generated.
  repeat (constructor; [apply stub_tags|]). constructor.
Qed.

(** ** Decoding *)

(** X5. Once the status is declared, a declared content type has matched and
    the body has parsed, the decoder registered for the pair decides: its
    failure is returned unchanged as the [DecodeError], and its value is
    returned as the body of the variant with the status and the matched
    content type. *)
Theorem decoder_result_decides
  (JSON_parse : string -> Completion Json) (D : Type)
  (decoders : Z -> string -> Decoder D) (responses : Responses)
  (r : RawResponse) (response : ResponseSpec) (ct : string) (parsed : Json) :
  responses !! status r = Some response ->
  matchedContentType (contentTypes response) (contentTypeOf r) = Some ct ->
  JSON_parse (text r) = Normal parsed ->
  generatedDispatcher JSON_parse decoders responses r =
  match decoders (status r) ct (status r) ct (text r) parsed with
  | Fail e => Fail (isDecodeError e)
  | Succeed d => Succeed (mkResponseVariant (status r) ct (Decoded d))
  end.
Proof.
  intros Hl Hm Hp.
  rewrite (generated_matched _ _ _ _ _ _ Hl Hm).
  unfold parseJSON. rewrite Hp. simpl.
  destruct (decoders _ _ _ _ _ _); reflexivity.
Qed.

Lemma decoder_result_decides_witness :
  generatedDispatcher JSON.parse (fun _ _ => mockDecoder) listPets_responses wrongSchema =
    Fail (isDecodeError
            (mkDecodeError 200 "application/json"
               (ThrownError (mkError "Error" "Expected id and name"))
               (jsonText "{'unexpected': 'field'}"))) /\
  generatedDispatcher JSON.parse (fun _ _ => mockDecoder) listPets_responses fluffy =
    Succeed (mkResponseVariant 200 "application/json"
               (Decoded (JObject [("id", JString "1"); ("name", JString "Fluffy")]))).
Proof.
  split.
  - rewrite (decoder_result_decides JSON.parse Json (fun _ _ => mockDecoder)
               listPets_responses wrongSchema jsonResponse "application/json"
               (JObject [("unexpected", JString "field")]));
      vm_compute; reflexivity.
  - rewrite (decoder_result_decides JSON.parse Json (fun _ _ => mockDecoder)
               listPets_responses fluffy jsonResponse "application/json"
               (JObject [("id", JString "1"); ("name", JString "Fluffy")]));
      vm_compute; reflexivity.
Defined.

Lemma json_lookup_matched (responses : Responses) r :
  responses !! status r = Some jsonResponse ->
  includes_opt (contentTypeOf r) "application/json" = true ->
  matchedContentType (contentTypes jsonResponse) (contentTypeOf r) = Some "application/json".
Proof.
  intros _ H. unfold matchedContentType. simpl. unfold ctCheck.
  rewrite bool_decide_eq_true_2 by reflexivity. rewrite H. reflexivity.
Qed.

Lemma stub_passes_parsed (JSON_parse : string -> Completion Json)
  (responses : Responses) r parsed :
  responses !! status r = Some jsonResponse ->
  includes_opt (contentTypeOf r) "application/json" = true ->
  JSON_parse (text r) = Normal parsed ->
  generatedDispatcher JSON_parse stubDecoders responses r =
  Succeed (mkResponseVariant (status r) "application/json" (Decoded parsed)).
Proof.
  intros Hl Hi Hp.
  rewrite (generated_matched _ _ _ _ _ _ Hl (json_lookup_matched _ _ Hl Hi)).
  unfold parseJSON. rewrite Hp. reflexivity.
Qed.

(** X6. For every petstore dispatcher, a response with a handled status that
    declares a body, a content-type header that contains application/json,
    and a text that [JSON.parse] accepts is returned with that status, the
    content type application/json and, as body, the parsed value itself: the
    generated decoders validate nothing. *)
Theorem stub_decoders_pass_parsed_value
  (JSON_parse : string -> Completion Json) (r : RawResponse) (parsed : Json) :
  includes_opt (Headers_get (headers r) "content-type") "application/json" = true ->
  JSON_parse (text r) = Normal parsed ->
  (status r ∈ [200; 500] ->
   Switch.dispatcherlistPets JSON_parse r =
   Succeed (mkResponseVariant (status r) "application/json" (Decoded parsed))) /\
  (status r ∈ [201; 400; 500] ->
   Switch.dispatchercreatePet JSON_parse r =
   Succeed (mkResponseVariant (status r) "application/json" (Decoded parsed))) /\
  (status r ∈ [200; 404; 500] ->
   Switch.dispatchergetPet JSON_parse r =
   Succeed (mkResponseVariant (status r) "application/json" (Decoded parsed))) /\
  (status r ∈ [404; 500] ->
   Switch.dispatcherdeletePet JSON_parse r =
   Succeed (mkResponseVariant (status r) "application/json" (Decoded parsed))).
Proof.
  intros Hi Hp.
  rewrite Switch_listPets_generated, Switch_createPet_generated,
    Switch_getPet_generated, Switch_deletePet_generated.
  repeat split; intros Hs; apply stub_passes_parsed; try assumption;
    repeat (apply elem_of_cons in Hs as [->|Hs]; [reflexivity|]);
    inversion Hs.
Qed.

Lemma stub_decoders_pass_parsed_value_witness :
  Switch.dispatchercreatePet JSON.parse
    (mkRawResponse 400 [("content-type", "application/json; charset=utf-8")]
       (jsonText "{'code': 400}")) =
  Succeed (mkResponseVariant 400 "application/json"
             (Decoded (JObject [("code", JNumber "400")]))).
Proof.
  apply (proj1 (proj2 (stub_decoders_pass_parsed_value JSON.parse
           (mkRawResponse 400 [("content-type", "application/json; charset=utf-8")]
              (jsonText "{'code': 400}"))
           (JObject [("code", JNumber "400")]) eq_refl eq_refl))).
  vm_compute. repeat constructor.
Defined.

(** ** Returned variants and the declared types *)

(** X7. A variant that the dispatcher returns is one of the declared
    variants: its status is the status of the response, and the pair of its
    status and content type belongs to [AllResponseVariants] of the table,
    hence to exactly one of [SuccessVariants] and [HttpErrorVariants]. (The
    response of that status either has no [content] member or one with at
    least one key.) *)
Theorem returned_variant_is_declared
  (JSON_parse : string -> Completion Json) (D : Type)
  (decoders : Z -> string -> Decoder D) (responses : Responses)
  (r : RawResponse) (response : ResponseSpec) (v : ResponseVariant D) :
  responses !! status r = Some response ->
  content response <> Some [] ->
  generatedDispatcher JSON_parse decoders responses r = Succeed v ->
  variantStatus v = status r /\
  AllResponseVariants responses (variantStatus v) (variantContentType v) = true /\
  SuccessVariants responses (variantStatus v) (variantContentType v) =
    negb (HttpErrorVariants responses (variantStatus v) (variantContentType v)).
Proof.
  intros Hl Hc Hv.
  assert (Hin : variantStatus v = status r /\
                variantContentType v ∈ ContentTypesFor responses (status r)).
  { destruct (Check_generatedDispatcher JSON_parse decoders responses r) as [tag H].
    rewrite Hv in H. unfold ContentTypesFor. rewrite Hl.
    inversion H; subst; simpl; split; try reflexivity;
      match goal with
      | Ha : responses !! status r = Some ?x |- _ =>
          rewrite Hl in Ha; injection Ha as <-
      end.
    - unfold contentTypes in *. destruct response as [[cts|]]; simpl in *.
      + subst cts. congruence.
      + apply list_elem_of_here.
    - match goal with
      | Hm : matchedContentType _ _ = Some _ |- _ =>
          apply matchedContentType_elem in Hm; revert Hm
      end.
      unfold contentTypes. destruct response as [[cts|]]; simpl; [auto|].
      intros Hm. inversion Hm. }
  destruct Hin as [Hs Hin]. split; [exact Hs|].
  assert (Hall : AllResponseVariants responses (variantStatus v) (variantContentType v)
                 = true).
  { unfold AllResponseVariants. rewrite Hs. apply bool_decide_eq_true_2, Hin. }
  split; [exact Hall|].
  unfold SuccessVariants, HttpErrorVariants. rewrite Hall. simpl.
  destruct (extendsSuccessLiterals _); reflexivity.
Qed.

Lemma returned_variant_is_declared_witness :
  variantStatus (mkResponseVariant 204 "none" (@Undefined Json)) = status htmlFor204 /\
  AllResponseVariants deletePet_responses 204 "none" = true /\
  SuccessVariants deletePet_responses 204 "none" =
    negb (HttpErrorVariants deletePet_responses 204 "none").
Proof.
  apply (returned_variant_is_declared JSON.parse Json stubDecoders deletePet_responses
           htmlFor204 emptyResponse (mkResponseVariant 204 "none" Undefined)).
  - vm_compute. reflexivity.
  - discriminate.
  - vm_compute. reflexivity.
Defined.

(** X8. [SuccessVariants] and [HttpErrorVariants] split the declared variants
    in two: a declared pair belongs to exactly one of them, a pair that is not
    declared to neither, and every member of [SuccessVariants] has a status
    in the range 200 to 299. *)
Theorem variants_partition (Rs : Responses) (S : Z) (CT : string) :
  (AllResponseVariants Rs S CT = true ->
   xorb (SuccessVariants Rs S CT) (HttpErrorVariants Rs S CT) = true) /\
  (AllResponseVariants Rs S CT = false ->
   SuccessVariants Rs S CT = false /\ HttpErrorVariants Rs S CT = false) /\
  (SuccessVariants Rs S CT = true -> 200 <= S <= 299).
Proof.
  split; [|split].
  - unfold SuccessVariants, HttpErrorVariants. intros ->. simpl.
    destruct (extendsSuccessLiterals S); reflexivity.
  - unfold SuccessVariants, HttpErrorVariants. intros ->. split; reflexivity.
  - apply SuccessVariants_in_range.
Qed.

Lemma variants_partition_witness :
  xorb (SuccessVariants createPet_responses 201 "application/json")
       (HttpErrorVariants createPet_responses 201 "application/json") = true /\
  (SuccessVariants createPet_responses 201 "text/html" = false /\
   HttpErrorVariants createPet_responses 201 "text/html" = false) /\
  200 <= 201 <= 299.
Proof.
  pose proof (variants_partition createPet_responses 201 "application/json")
    as (H1 & _ & H3).
  pose proof (variants_partition createPet_responses 201 "text/html") as (_ & H2 & _).
  split; [|split].
  - apply H1. vm_compute. reflexivity.
  - apply H2. vm_compute. reflexivity.
  - apply H3. vm_compute. reflexivity.
Defined.

(** ** Content-type edge cases *)

Lemma ctCheck_missing ct : ctCheck ct None = false.
Proof.
  unfold ctCheck. destruct (bool_decide (ct = "application/json")); [reflexivity|].
  apply bool_decide_eq_false_2. discriminate.
Qed.

Lemma matchedContentType_missing cts : matchedContentType cts None = None.
Proof.
  unfold matchedContentType.
  induction cts as [|ct cts IH]; simpl; [reflexivity|].
  rewrite ctCheck_missing. exact IH.
Qed.

(** X9. A response without a content-type header, for a declared status that
    declares content types, is an [UnexpectedContentType] whose [actual] is
    undefined, whatever the body and the declared types. *)
Theorem missing_content_type_header
  (JSON_parse : string -> Completion Json) (D : Type)
  (decoders : Z -> string -> Decoder D) (responses : Responses)
  (r : RawResponse) (response : ResponseSpec) :
  responses !! status r = Some response ->
  contentTypes response <> [] ->
  Headers_get (headers r) "content-type" = None ->
  generatedDispatcher JSON_parse decoders responses r =
  Fail (isUnexpectedContentType
          (mkUnexpectedContentType (status r) (contentTypes response) None (text r))).
Proof.
  intros Hl Hne Hh.
  rewrite (generated_content_type_mismatch _ _ _ _ _ Hl Hne).
  - unfold contentTypeOf. rewrite Hh. reflexivity.
  - unfold contentTypeOf. rewrite Hh. apply matchedContentType_missing.
Qed.

Lemma missing_content_type_header_witness :
  Switch.dispatcherlistPets JSON.parse noHeaders200 =
  Fail (isUnexpectedContentType
          (mkUnexpectedContentType 200 ["application/json"] None "[]")).
Proof.
  rewrite Switch_listPets_generated.
  apply (missing_content_type_header JSON.parse Json stubDecoders listPets_responses
           noHeaders200 jsonResponse).
  - vm_compute. reflexivity.
  - discriminate.
  - reflexivity.
Defined.

Lemma matchedContentType_app_l cts1 cts2 contentType ct :
  matchedContentType cts1 contentType = Some ct ->
  matchedContentType (cts1 ++ cts2) contentType = Some ct.
Proof.
  unfold matchedContentType.
  induction cts1 as [|c cts1 IH]; simpl; [discriminate|].
  destruct (ctCheck c contentType); [auto | exact IH].
Qed.

Lemma matchedContentType_json_declared cts c :
  "application/json" ∈ cts -> occursIn "application/json" c ->
  exists ct, matchedContentType cts (Some c) = Some ct.
Proof.
  intros Hin Hocc. unfold matchedContentType.
  induction cts as [|x cts IH]; [inversion Hin|]. simpl.
  destruct (ctCheck x (Some c)) eqn:E; [eauto|].
  apply elem_of_cons in Hin as [<-|Hin]; [|auto].
  unfold ctCheck in E. rewrite bool_decide_eq_true_2 in E by reflexivity.
  simpl in E. apply includes_spec in Hocc. congruence.
Qed.

(** X10. A declared application/json shadows every content type declared
    after it whose name contains application/json: a response whose header
    value is such a later type is handled by a type declared up to
    application/json, its block and its decoder; the block of the later type
    is never reached for it. *)
Theorem json_shadows_later_types
  (JSON_parse : string -> Completion Json) (D : Type)
  (decoders : Z -> string -> Decoder D) (responses : Responses)
  (r : RawResponse) (before after : list string) (later : string) :
  responses !! status r = Some {| content := Some (before ++ later :: after) |} ->
  "application/json" ∈ before ->
  occursIn "application/json" later ->
  Headers_get (headers r) "content-type" = Some later ->
  exists ct,
    ct ∈ before /\
    generatedDispatcher JSON_parse decoders responses r =
    let* parsed :=
      Effect_mapError (parseJSON JSON_parse (status r) ct (text r)) isParseError in
    let* decoded :=
      Effect_mapError (decoders (status r) ct (status r) ct (text r) parsed)
        isDecodeError in
    Succeed (mkResponseVariant (status r) ct (Decoded decoded)).
Proof.
  intros Hl Hin Hocc Hh.
  destruct (matchedContentType_json_declared before later Hin Hocc) as [ct Hct].
  exists ct. split; [exact (matchedContentType_elem _ _ _ Hct)|].
  apply (generated_matched _ _ _ _ _ _ Hl). simpl.
  unfold contentTypeOf. rewrite Hh. apply matchedContentType_app_l, Hct.
Qed.

Lemma json_shadows_later_types_witness :
  exists ct,
    ct ∈ ["application/json"] /\
    generatedDispatcher JSON.parse stubDecoders twoJsonTypes jsonPatch =
    let* parsed :=
      Effect_mapError (parseJSON JSON.parse (status jsonPatch) ct (text jsonPatch))
        isParseError in
    let* decoded :=
      Effect_mapError
        (stubDecoders (status jsonPatch) ct (status jsonPatch) ct (text jsonPatch) parsed)
        isDecodeError in
    Succeed (mkResponseVariant (status jsonPatch) ct (Decoded decoded)).
Proof.
  apply (json_shadows_later_types JSON.parse Json stubDecoders twoJsonTypes jsonPatch
           ["application/json"] [] "application/json-patch+json").
  - vm_compute. reflexivity.
  - apply list_elem_of_here.
  - exists "", "-patch+json". reflexivity.
  - reflexivity.
Defined.

(** ** The URL of a request: edges *)

Lemma requestInit_url D (method : HttpMethod) (path : string) (options : RequestOptions D) :
  reqUrl (requestInit method path options) =
  urlInWords (baseUrl options) path (params options) (query options).
Proof.
  unfold requestInit, urlInWords. simpl.
  destruct (params options) as [ps|]; destruct (query options) as [qs|]; simpl;
    rewrite ?foldl_replace_substituteParams, ?foldl_append_entries, ?app_nil_l,
      ?URLSearchParams_toString_queryString, ?append_nil_r; reflexivity.
Qed.

Lemma countChar_cons c x s :
  countChar c (String x s) = ((if Ascii.eqb x c then 1 else 0) + countChar c s)%nat.
Proof. reflexivity. Qed.

Lemma countChar_append c (a b : string) :
  countChar c (a +:+ b) = (countChar c a + countChar c b)%nat.
Proof.
  induction a as [|x a IH]; [reflexivity|].
  rewrite append_cons. simpl. rewrite IH. lia.
Qed.

Lemma countChar_drop c n s : (countChar c (drop_string n s) <= countChar c s)%nat.
Proof.
  revert s. induction n as [|n IH]; intros s; destruct s as [|x s]; simpl; try lia.
  specialize (IH s). lia.
Qed.

Lemma countChar_substituteFirst c s pat rep :
  (countChar c (substituteFirst s pat rep) <= countChar c s + countChar c rep)%nat.
Proof.
  induction s as [|x s IH]; simpl.
  - destruct (startsWith "" pat); simpl; [|lia].
    rewrite countChar_append.
    pose proof (countChar_drop c (String.length pat) ""). simpl in *. lia.
  - destruct (startsWith (String x s) pat); simpl.
    + rewrite countChar_append.
      pose proof (countChar_drop c (String.length pat) (String x s)). simpl in *. lia.
    + lia.
Qed.

Lemma hexChar_alphaNum h : isOneOf hexChars h = true -> isAlphaNum h = true.
Proof.
  destruct h as [[] [] [] [] [] [] [] []]; vm_compute; congruence.
Qed.

Lemma countChar_percentByte c x rest :
  isAlphaNum c = false -> c <> "%"%char ->
  countChar c (percentByte x rest) = countChar c rest.
Proof.
  intros Hc Hp.
  destruct (percentByte_shape x rest) as (hi & lo & -> & Hhi & Hlo).
  apply hexChar_alphaNum in Hhi, Hlo. rewrite !countChar_cons.
  destruct (Ascii.eqb_spec "%" c) as [E|_]; [congruence|].
  destruct (Ascii.eqb_spec hi c) as [E|_]; [congruence|].
  destruct (Ascii.eqb_spec lo c) as [E|_]; [congruence|].
  reflexivity.
Qed.

Lemma uriUnreserved_alphaNum c : uriUnreserved c = false -> isAlphaNum c = false.
Proof. unfold uriUnreserved. intros [H _]%orb_false_elim. exact H. Qed.

Lemma countChar_encodeURIComponent c s :
  uriUnreserved c = false -> c <> "%"%char -> countChar c (encodeURIComponent s) = 0%nat.
Proof.
  intros Hc Hp. induction s as [|x s IH]; [reflexivity|]. simpl.
  destruct (uriUnreserved x) eqn:Ex.
  - rewrite countChar_cons.
    destruct (Ascii.eqb_spec x c) as [E|_]; [congruence | exact IH].
  - rewrite countChar_percentByte by (auto using uriUnreserved_alphaNum). exact IH.
Qed.

Lemma countChar_substituteParams c url entries :
  uriUnreserved c = false -> c <> "%"%char ->
  (countChar c (substituteParams url entries) <= countChar c url)%nat.
Proof.
  intros Hc Hp. revert url.
  induction entries as [|[key value] entries IH]; intros url; simpl; [lia|].
  etransitivity; [apply IH|].
  pose proof (countChar_substituteFirst c url ("{" +:+ key +:+ "}")
                (encodeURIComponent (String_of value))) as H.
  rewrite countChar_encodeURIComponent in H by assumption. lia.
Qed.

(** X11. Substituting path parameters never adds a delimiter to the URL: for
    a request without query, every character outside the unreserved set and
    other than the percent sign (a slash, a question mark, a hash, an
    ampersand, a brace, a space) occurs in the URL at most as often as in the
    base URL and the path template, whatever the parameter values. *)
Theorem path_values_add_no_delimiter (D : Type) (method : HttpMethod) (path : string)
  (options : RequestOptions D) (c : ascii) :
  query options = None ->
  uriUnreserved c = false ->
  c <> "%"%char ->
  (countChar c (reqUrl (requestInit method path options)) <=
   countChar c (baseUrl options +:+ path))%nat.
Proof.
  intros Hq Hc Hp. rewrite requestInit_url, Hq. unfold urlInWords.
  rewrite append_nil_r. apply countChar_substituteParams; assumption.
Qed.

Lemma path_values_add_no_delimiter_witness :
  (countChar "/"
     (reqUrl (requestInit GET "/pets/{petId}"
                (getPetOptions (Some [("petId", Str "../admin?x=1#top")]) None))) <=
   countChar "/" ("https://api.example.com" +:+ "/pets/{petId}"))%nat.
Proof.
  apply (path_values_add_no_delimiter Json GET "/pets/{petId}"
           (getPetOptions (Some [("petId", Str "../admin?x=1#top")]) None) "/").
  - reflexivity.
  - reflexivity.
  - discriminate.
Defined.

Lemma formSafe_alphaNum c : formSafe c = false -> isAlphaNum c = false.
Proof. unfold formSafe. intros [H _]%orb_false_elim. exact H. Qed.

Lemma formSafe_kept c x :
  formSafe c = false -> isAlphaNum x || isOneOf "*-._" x = true -> x <> c.
Proof.
  intros Hc Hx ->. unfold formSafe in Hc.
  apply orb_false_elim in Hc as [Ha Ho].
  rewrite Ha in Hx. simpl in Hx.
  revert Hx Ho. unfold isOneOf. simpl. rewrite !orb_false_r.
  destruct (Ascii.eqb c "*"), (Ascii.eqb c "-"), (Ascii.eqb c "."), (Ascii.eqb c "_");
    simpl; intros; try discriminate; congruence.
Qed.

Lemma countChar_formUrlEncode c s :
  formSafe c = false -> c <> "%"%char -> countChar c (formUrlEncode s) = 0%nat.
Proof.
  intros Hc Hp. induction s as [|x s IH]; [reflexivity|]. simpl.
  destruct (Ascii.eqb x " ").
  - rewrite countChar_cons.
    destruct (Ascii.eqb_spec "+" c) as [<-|_]; [discriminate Hc | exact IH].
  - destruct (isAlphaNum x || isOneOf "*-._" x) eqn:Ex.
    + rewrite countChar_cons. destruct (Ascii.eqb_spec x c) as [E|_]; [|exact IH].
      destruct (formSafe_kept c x Hc Ex E).
    + rewrite countChar_percentByte by (auto using formSafe_alphaNum). exact IH.
Qed.

Lemma countChar_pair c k v :
  formSafe c = false -> c <> "%"%char ->
  countChar c (formUrlEncode k +:+ "=" +:+ formUrlEncode v) =
  if Ascii.eqb "=" c then 1%nat else 0%nat.
Proof.
  intros Hc Hp. rewrite !countChar_append, !countChar_formUrlEncode by assumption.
  rewrite countChar_cons. change (countChar c "") with 0%nat.
  destruct (Ascii.eqb "=" c); reflexivity.
Qed.

Lemma countChar_queryString c entries :
  formSafe c = false -> c <> "%"%char ->
  countChar c (queryString entries) =
  ((if Ascii.eqb "=" c then length entries else 0) +
   (if Ascii.eqb "&" c then pred (length entries) else 0))%nat.
Proof.
  intros Hc Hp. unfold queryString.
  induction entries as [|[k v] entries IH]; cbn [map joinWith length Nat.pred fst snd].
  - change (countChar c "") with 0%nat.
    destruct (Ascii.eqb "=" c), (Ascii.eqb "&" c); reflexivity.
  - destruct entries as [|kv' entries]; cbn [map joinWith length Nat.pred fst snd] in *.
    + rewrite countChar_pair by assumption.
      destruct (Ascii.eqb "=" c), (Ascii.eqb "&" c); reflexivity.
    + rewrite countChar_append, countChar_pair by assumption.
      rewrite (countChar_append c "&"), countChar_cons.
      change (countChar c "") with 0%nat.
      rewrite IH.
      destruct (Ascii.eqb "=" c), (Ascii.eqb "&" c); lia.
Qed.

(** X12. Query parameters add to the URL exactly a question mark and a query
    string that holds one equals sign per parameter, one ampersand between
    two parameters, and no question mark or hash: keys and values cannot add
    or split parameters. An empty record of query parameters still adds the
    question mark, followed by nothing. *)
Theorem query_string_shape (D : Type) (method : HttpMethod) (path : string)
  (d : Dispatcher D) (base : string) (ps : option (list (string * StringOrNumber)))
  (entries : list (string * StringOrNumber))
  (h : option Headers) (b : option BodyInit) (s : option AbortSignal) :
  exists qs,
    reqUrl (requestInit method path (mkRequestOptions d base ps (Some entries) h b s)) =
      reqUrl (requestInit method path (mkRequestOptions d base ps None h b s))
      +:+ "?" +:+ qs /\
    countChar "=" qs = length entries /\
    countChar "&" qs = pred (length entries) /\
    countChar "?" qs = 0%nat /\
    countChar "#" qs = 0%nat /\
    (entries = [] -> qs = "").
Proof.
  exists (queryString entries). rewrite !requestInit_url. unfold urlInWords. simpl.
  rewrite append_nil_r.
  rewrite !countChar_queryString by (reflexivity || discriminate). simpl.
  repeat split; try lia. intros ->. reflexivity.
Qed.

Lemma query_string_shape_witness :
  exists qs,
    reqUrl (requestInit GET "/pets" (getPetOptions None (Some []))) =
      reqUrl (requestInit GET "/pets" (getPetOptions None None)) +:+ "?" +:+ qs /\
    countChar "=" qs = 0%nat /\
    countChar "&" qs = 0%nat /\
    countChar "?" qs = 0%nat /\
    countChar "#" qs = 0%nat /\
    ([] = @nil (string * StringOrNumber) -> qs = "").
Proof.
  exact (query_string_shape Json GET "/pets" (Switch.dispatchergetPet JSON.parse)
           "https://api.example.com" None [] None None None).
Defined.

Lemma substituteParams_absent url entries :
  Forall (fun kv => ~ occursIn ("{" +:+ kv.1 +:+ "}") url) entries ->
  substituteParams url entries = url.
Proof.
  induction 1 as [|[key value] entries Hk _ IH]; simpl; [reflexivity|].
  rewrite substituteFirst_absent by exact Hk. exact IH.
Qed.

(** X13. Path parameters whose placeholder does not occur in the base URL
    and the path template are ignored without an error: the URL is the one
    built without path parameters. *)
Theorem unknown_path_params_are_ignored (D : Type) (method : HttpMethod) (path : string)
  (d : Dispatcher D) (base : string) (entries : list (string * StringOrNumber))
  (q : option (list (string * StringOrNumber)))
  (h : option Headers) (b : option BodyInit) (s : option AbortSignal) :
  Forall (fun kv => ~ occursIn ("{" +:+ kv.1 +:+ "}") (base +:+ path)) entries ->
  reqUrl (requestInit method path (mkRequestOptions d base (Some entries) q h b s)) =
  reqUrl (requestInit method path (mkRequestOptions d base None q h b s)).
Proof.
  intros Habs. rewrite !requestInit_url. unfold urlInWords. simpl.
  rewrite substituteParams_absent by exact Habs. reflexivity.
Qed.

Lemma unknown_path_params_are_ignored_witness :
  reqUrl (requestInit GET "/pets/{petId}"
            (getPetOptions (Some [("id", Num 7); ("ownerId", Str "x")]) None)) =
  reqUrl (requestInit GET "/pets/{petId}" (getPetOptions None None)).
Proof.
  apply (unknown_path_params_are_ignored Json GET "/pets/{petId}"
           (Switch.dispatchergetPet JSON.parse) "https://api.example.com"
           [("id", Num 7); ("ownerId", Str "x")] None None None None).
  repeat constructor; apply indexOf_None_occurs; vm_compute; reflexivity.
Defined.

(** ** Request headers of the platform client *)

Lemma record_set_map (result : list (string * string)) key value :
  (list_to_map (record_set result key value) : gmap string string) =
  <[key := value]> (list_to_map result).
Proof.
  induction result as [|[k v] result IH]; simpl; [reflexivity|].
  destruct (bool_decide_reflect (k = key)) as [->|Hne]; simpl.
  - rewrite insert_insert_eq. reflexivity.
  - rewrite IH. apply insert_insert_ne. congruence.
Qed.

Lemma record_set_keys (result : list (string * string)) key value :
  NoDup result.*1 ->
  NoDup (record_set result key value).*1 /\
  forall k, k ∈ (record_set result key value).*1 <-> k = key \/ k ∈ result.*1.
Proof.
  induction result as [|[k v] result IH]; simpl; intros Hnd.
  - split; [repeat constructor; apply not_elem_of_nil|].
    intros k'. rewrite list_elem_of_singleton, elem_of_nil. tauto.
  - apply NoDup_cons in Hnd as [Hk Hnd].
    destruct (bool_decide_reflect (k = key)) as [->|Hne]; simpl.
    + split; [apply NoDup_cons; auto|].
      intros k'. rewrite !elem_of_cons. tauto.
    + destruct (IH Hnd) as [IH1 IH2]. split.
      * apply NoDup_cons. split; [|exact IH1].
        rewrite IH2. intros [E|E]; [congruence | contradiction].
      * intros k'. rewrite !elem_of_cons, IH2. tauto.
Qed.

Lemma foldl_record_set (acc : list (string * string)) (h : Headers) :
  NoDup acc.*1 ->
  NoDup (foldl (fun result kv => record_set result kv.1 kv.2) acc h).*1 /\
  (list_to_map (foldl (fun result kv => record_set result kv.1 kv.2) acc h)
     : gmap string string) =
  list_to_map (reverse h) ∪ list_to_map acc.
Proof.
  revert acc. induction h as [|[k v] h IH]; intros acc Hnd; simpl.
  - split; [exact Hnd|]. rewrite (left_id_L ∅ (∪)). reflexivity.
  - destruct (IH (record_set acc k v)) as [IH1 IH2].
    { apply record_set_keys, Hnd. }
    split; [exact IH1|].
    rewrite IH2, record_set_map, reverse_cons, list_to_map_app. simpl.
    rewrite insert_empty, <- (assoc_L (∪)), <- insert_union_singleton_l.
    reflexivity.
Qed.

(** X14. For headers given as an array of name-value pairs, none of them
    named [__proto__] (an assignment to that name adds no entry to an object),
    [toRecordHeaders] builds a record with one entry per name, in which the
    last pair of each name wins: its names are distinct, and as a finite map
    it is the map of the pairs read from the last to the first. *)
Theorem toRecordHeaders_last_wins (headers : Headers) :
  "__proto__" ∉ headers.*1 ->
  NoDup (toRecordHeaders headers).*1 /\
  (list_to_map (toRecordHeaders headers) : gmap string string) =
  list_to_map (reverse headers).
Proof.
  intros _.
  destruct (foldl_record_set [] headers) as [H1 H2]; [constructor|].
  split; [exact H1|].
  unfold toRecordHeaders. rewrite H2. simpl.
  apply (right_id_L ∅ (∪)).
Qed.

Lemma toRecordHeaders_last_wins_witness :
  NoDup (toRecordHeaders [("accept", "text/html"); ("x-a", "1"); ("accept", "*/*")]).*1 /\
  (list_to_map (toRecordHeaders [("accept", "text/html"); ("x-a", "1"); ("accept", "*/*")])
     : gmap string string) =
  list_to_map (reverse [("accept", "text/html"); ("x-a", "1"); ("accept", "*/*")]).
Proof.
  apply (toRecordHeaders_last_wins
           [("accept", "text/html"); ("x-a", "1"); ("accept", "*/*")]).
  intros H. repeat (apply elem_of_cons in H as [H|H]; [discriminate H|]).
  inversion H.
Defined.

(** ** The request of the platform client *)

(** X15. [executeRequest] over the platform client never hands the abort
    signal on: two configurations that differ in their signal only build the
    same request and end the same way. A method without an entry in the
    method map, trace, builds the request that get builds. And a body that is
    no string goes through [JSON.stringify]: when that throws, the request
    ends with the defect, whatever the client would have answered. *)
Theorem platform_request_shape
  (platform : Platform) (JSON_stringify : N -> Completion string)
  (client_execute : HttpClientRequest -> Exit HttpClientResponse Thrown)
  (D : Type) (method : HttpMethod) (url : string) (d : Dispatcher D)
  (h : option Headers) (b : option BodyInit) (s s' : option AbortSignal)
  (ref : N) (defect : Thrown) :
  buildRequest JSON_stringify (mkStrictRequestInit method url d h b s) =
    buildRequest JSON_stringify (mkStrictRequestInit method url d h b s') /\
  App.executeRequest JSON_stringify client_execute (mkStrictRequestInit method url d h b s) =
    App.executeRequest JSON_stringify client_execute
      (mkStrictRequestInit method url d h b s') /\
  buildRequest JSON_stringify (mkStrictRequestInit TRACE url d h b s) =
    buildRequest JSON_stringify (mkStrictRequestInit GET url d h b s) /\
  App.executeRequest (fun _ => Throw defect) client_execute
    (mkStrictRequestInit method url d h (Some (BodyObject ref)) s) = Die defect.
Proof.
  repeat split.
Qed.

(** ** Transport and classification together *)

(** X16. With a generated dispatcher, a [TransportError] from [executeRequest]
    means that the network failed, and nothing else: the request fails with a
    [TransportError] exactly when [fetch] was rejected or the body could not
    be read, and the error is the one of that cause; classification never
    produces it. The same holds over the platform client, where the failures
    are those of the client and of the reading of the body. *)
Theorem transport_error_iff_transport_failed
  (platform : Platform) (JSON_stringify : N -> Completion string)
  (fetch : string -> RequestInit -> Completion FetchResponse)
  (client_execute : HttpClientRequest -> Exit HttpClientResponse Thrown)
  (JSON_parse : string -> Completion Json) (D : Type)
  (decoders : Z -> string -> Decoder D) (responses : Responses)
  (method : HttpMethod) (url : string)
  (h : option Headers) (b : option BodyInit) (s : option AbortSignal)
  (e : TransportError) :
  (executeRequest fetch
     (mkStrictRequestInit method url (generatedDispatcher JSON_parse decoders responses)
        h b s) = Fail (isTransportError e) <->
   exists cause,
     Transport fetch
       (mkStrictRequestInit method url (generatedDispatcher JSON_parse decoders responses)
          h b s) (Throw cause) /\
     e = mkTransportError (toError cause)) /\
  (App.executeRequest JSON_stringify client_execute
     (mkStrictRequestInit method url (generatedDispatcher JSON_parse decoders responses)
        h b s) = Failure (isTransportError e) <->
   exists cause,
     PlatformTransport JSON_stringify client_execute
       (mkStrictRequestInit method url (generatedDispatcher JSON_parse decoders responses)
          h b s) (Failure cause) /\
     e = mkTransportError (toError cause)).
Proof.
  set (config := mkStrictRequestInit method url _ h b s).
  assert (Hraw : forall raw, reqDispatcher config raw <> Fail (isTransportError e)).
  { intros raw He. simpl in He.
    pose proof (generatedDispatcher_not_TransportError JSON_parse D decoders
                  responses raw) as Hn.
    rewrite He in Hn. destruct Hn. reflexivity. }
  split; split.
  - intros He. destruct (Transport_total fetch D config) as [[raw|cause] Ht];
      rewrite (executeRequest_afterTransport _ _ _ _ Ht) in He.
    + destruct (Hraw raw He).
    + exists cause. split; [exact Ht | simpl in He; congruence].
  - intros (cause & Ht & ->).
    rewrite (executeRequest_afterTransport _ _ _ _ Ht). reflexivity.
  - intros He.
    destruct (PlatformTransport_total JSON_stringify client_execute D config)
      as [[raw|cause|defect] Ht];
      rewrite (platform_afterTransport _ _ _ _ _ Ht) in He;
      unfold afterPlatformTransport in He.
    + destruct (reqDispatcher config raw) as [v|e'] eqn:Hd; simpl in He;
        [discriminate|].
      injection He as ->. destruct (Hraw raw Hd).
    + exists cause. split; [exact Ht | congruence].
    + discriminate.
  - intros (cause & Ht & ->).
    rewrite (platform_afterTransport _ _ _ _ _ Ht). reflexivity.
Qed.

(** X17. Each method of the client sends its own verb: when [fetch], asked
    for the built URL with that verb and the headers, body and signal of the
    options, delivers a response whose body can be read, the call returns
    what the dispatcher of the options makes of that response. *)
Theorem client_methods_compose
  (fetch : string -> RequestInit -> Completion FetchResponse) (D : Type) :
  deliversTo fetch GET (client_GET (createStrictClient fetch) D) /\
  deliversTo fetch POST (client_POST (createStrictClient fetch) D) /\
  deliversTo fetch PUT (client_PUT (createStrictClient fetch) D) /\
  deliversTo fetch PATCH (client_PATCH (createStrictClient fetch) D) /\
  deliversTo fetch DELETE (client_DELETE (createStrictClient fetch) D).
Proof.
  repeat split; intros path options response text Hf Ht;
    simpl; unfold makeRequest;
    rewrite (executeRequest_afterTransport fetch D _ _
               (transport_delivered fetch _ response text Hf Ht));
    reflexivity.
Qed.

Lemma client_methods_compose_witness :
  client_DELETE (createStrictClient (mockFetch (mkFetchResponse 204 [] (Normal ""))))
    Json "/pets/{petId}" deletePetOptions =
  Succeed (mkResponseVariant 204 "none" Undefined).
Proof.
  rewrite (proj2 (proj2 (proj2 (proj2
             (client_methods_compose
                (mockFetch (mkFetchResponse 204 [] (Normal ""))) Json))))
             "/pets/{petId}" deletePetOptions (mkFetchResponse 204 [] (Normal "")) ""
             eq_refl eq_refl).
  reflexivity.
Defined.

(** ** The generator: decoders called and decoders declared *)

Lemma called_is_declared operationId status response :
  calledForResponse operationId status response =
  declaredForResponse operationId status response.
Proof.
  unfold calledForResponse, declaredForResponse.
  destruct (contentTypes response) as [|ct [|ct' cts]]; reflexivity.
Qed.

(** X18. The two files the generator writes agree on the decoders: the
    decoders that the cases of the generated dispatchers call are, name for
    name and in the same order, the decoders that the generated decoders file
    declares, for every document. *)
Theorem generated_files_agree_on_decoders (spec : OpenAPISpec) :
  calledDecoders spec = declaredDecoders spec.
Proof.
  unfold calledDecoders, declaredDecoders, overResponses.
  apply list_bind_ext; [|reflexivity]. intros [pathKey pathItem].
  apply list_bind_ext; [|reflexivity]. intros [method operation].
  apply list_bind_ext; [|reflexivity]. intros [status response].
  apply called_is_declared.
Qed.

(** ** Response headers of the platform client *)














(** ** Round trips *)

Lemma percentDecode_percentByte c rest :
  percentDecode (percentByte c rest) = String c <$> percentDecode rest.
Proof. destruct c as [[] [] [] [] [] [] [] []]; reflexivity. Qed.

Lemma formUrlDecode_percentByte c rest :
  formUrlDecode (percentByte c rest) = String c <$> formUrlDecode rest.
Proof. destruct c as [[] [] [] [] [] [] [] []]; reflexivity. Qed.

Lemma percentDecode_encodeURIComponent s :
  percentDecode (encodeURIComponent s) = Some s.
Proof.
  induction s as [|c s IH]; [reflexivity|]. simpl.
  destruct (uriUnreserved c) eqn:E.
  - simpl. destruct (Ascii.eqb_spec c "%") as [->|_]; [discriminate E|].
    rewrite IH. reflexivity.
  - rewrite percentDecode_percentByte, IH. reflexivity.
Qed.

Lemma formUrlDecode_formUrlEncode s : formUrlDecode (formUrlEncode s) = Some s.
Proof.
  induction s as [|c s IH]; [reflexivity|]. simpl.
  destruct (Ascii.eqb_spec c " ") as [->|Hsp].
  - simpl. rewrite IH. reflexivity.
  - destruct (isAlphaNum c || isOneOf "*-._" c) eqn:E.
    + simpl.
      destruct (Ascii.eqb_spec c "%") as [->|_]; [discriminate E|].
      destruct (Ascii.eqb_spec c "+") as [->|_]; [discriminate E|].
      rewrite IH. reflexivity.
    + rewrite formUrlDecode_percentByte, IH. reflexivity.
Qed.

(** X20. A path parameter value can be read back from the URL: where the
    placeholder of the single path parameter first occurs between [pre] and
    [post], the URL is [pre], a segment and [post], and percent-decoding the
    segment gives back the string form of the value, byte for byte. *)
Theorem path_value_round_trip (D : Type) (method : HttpMethod) (path : string)
  (d : Dispatcher D) (base : string) (key : string) (value : StringOrNumber)
  (h : option Headers) (b : option BodyInit) (s : option AbortSignal)
  (pre post : string) :
  base +:+ path = pre +:+ ("{" +:+ key +:+ "}") +:+ post ->
  indexOf (base +:+ path) ("{" +:+ key +:+ "}") = Some (String.length pre) ->
  exists segment,
    reqUrl (requestInit method path
              (mkRequestOptions d base (Some [(key, value)]) None h b s)) =
      pre +:+ segment +:+ post /\
    percentDecode segment = Some (String_of value).
Proof.
  intros Hsplit Hidx. exists (encodeURIComponent (String_of value)).
  split; [|apply percentDecode_encodeURIComponent].
  rewrite requestInit_url. unfold urlInWords. simpl.
  rewrite append_nil_r. rewrite Hsplit in *.
  apply substituteFirst_present, Hidx.
Qed.

Lemma path_value_round_trip_witness :
  exists segment,
    reqUrl (requestInit GET "/pets/{petId}/toys"
              (mkRequestOptions (Switch.dispatchergetPet JSON.parse)
                 "https://api.example.com" (Some [("petId", Str "a b/c%")])
                 None None None None)) =
      "https://api.example.com/pets/" +:+ segment +:+ "/toys" /\
    percentDecode segment = Some (String_of (Str "a b/c%")).
Proof.
  apply (path_value_round_trip Json GET "/pets/{petId}/toys"
           (Switch.dispatchergetPet JSON.parse) "https://api.example.com" "petId"
           (Str "a b/c%") None None None "https://api.example.com/pets/" "/toys").
  - reflexivity.
  - vm_compute. reflexivity.
Defined.

Lemma countChar_0_cons c x s :
  countChar c (String x s) = 0%nat -> Ascii.eqb x c = false /\ countChar c s = 0%nat.
Proof.
  rewrite countChar_cons. destruct (Ascii.eqb x c); [discriminate|]. auto.
Qed.

Lemma splitFirst_append sep (a b : string) :
  countChar sep a = 0%nat ->
  splitFirst sep (a +:+ String sep b) = (a, b).
Proof.
  induction a as [|x a IH]; intros H.
  - rewrite append_nil_l. simpl. rewrite Ascii.eqb_refl. reflexivity.
  - apply countChar_0_cons in H as [Hx H]. rewrite append_cons. simpl.
    rewrite Hx, IH by exact H. reflexivity.
Qed.

Lemma splitOn_no_sep sep (a : string) :
  countChar sep a = 0%nat -> splitOn sep a = [a].
Proof.
  induction a as [|x a IH]; intros H; [reflexivity|].
  apply countChar_0_cons in H as [Hx H]. simpl.
  rewrite Hx, IH by exact H. reflexivity.
Qed.

Lemma splitOn_append sep (a b : string) :
  countChar sep a = 0%nat ->
  splitOn sep (a +:+ String sep b) = a :: splitOn sep b.
Proof.
  induction a as [|x a IH]; intros H.
  - rewrite append_nil_l. simpl. rewrite Ascii.eqb_refl. reflexivity.
  - apply countChar_0_cons in H as [Hx H]. rewrite append_cons. simpl.
    rewrite Hx, IH by exact H. reflexivity.
Qed.

Lemma pair_no_ampersand k v :
  countChar "&" (formUrlEncode k +:+ "=" +:+ formUrlEncode v) = 0%nat.
Proof. rewrite countChar_pair by (reflexivity || discriminate). reflexivity. Qed.

Lemma pair_not_empty k v : formUrlEncode k +:+ "=" +:+ formUrlEncode v <> "".
Proof.
  intros H. apply (f_equal (countChar "=")) in H.
  rewrite countChar_pair in H by (reflexivity || discriminate). discriminate H.
Qed.

Lemma splitOn_queryString kv entries :
  splitOn "&" (queryString (kv :: entries)) =
  map (fun kv => formUrlEncode kv.1 +:+ "=" +:+ formUrlEncode (String_of kv.2))
    (kv :: entries).
Proof.
  unfold queryString. revert kv.
  induction entries as [|kv' entries IH]; intros [k v];
    cbn [map joinWith fst snd].
  - apply splitOn_no_sep, pair_no_ampersand.
  - change ("&" +:+ ?x) with (String "&" x).
    rewrite splitOn_append by apply pair_no_ampersand.
    f_equal. apply (IH kv').
Qed.

Lemma parse_piece k v :
  (let '(k', v') := splitFirst "=" (formUrlEncode k +:+ "=" +:+ formUrlEncode v) in
   name ← formUrlDecode k'; value ← formUrlDecode v'; Some (name, value)) = Some (k, v).
Proof.
  change ("=" +:+ ?x) with (String "=" x).
  rewrite splitFirst_append
    by (apply countChar_formUrlEncode; [reflexivity | discriminate]).
  rewrite !formUrlDecode_formUrlEncode. reflexivity.
Qed.

Lemma parseQuery_queryString entries :
  parseQuery (queryString entries) = Some (map (fun kv => (kv.1, String_of kv.2)) entries).
Proof.
  unfold parseQuery. destruct entries as [|kv entries]; [reflexivity|].
  rewrite splitOn_queryString.
  generalize (kv :: entries). clear. intros entries.
  induction entries as [|[k v] entries IH]; [reflexivity|].
  cbn [map fst snd].
  rewrite filter_cons_True by apply pair_not_empty.
  cbn [mapM]. cbn beta. rewrite parse_piece, IH. reflexivity.
Qed.

(** X21. The query string that the client appends reads back to the query
    parameters it was given: parsed the way [URLSearchParams] parses (pieces
    between ampersands, cut at the first equals sign, decoded), it gives the
    pairs of keys and string forms of the values, in the same order, whatever
    characters the keys and the values hold. *)
Theorem query_round_trip (D : Type) (method : HttpMethod) (path : string)
  (d : Dispatcher D) (base : string) (ps : option (list (string * StringOrNumber)))
  (entries : list (string * StringOrNumber))
  (h : option Headers) (b : option BodyInit) (s : option AbortSignal) :
  exists qs,
    reqUrl (requestInit method path (mkRequestOptions d base ps (Some entries) h b s)) =
      reqUrl (requestInit method path (mkRequestOptions d base ps None h b s))
      +:+ "?" +:+ qs /\
    parseQuery qs = Some (map (fun kv => (kv.1, String_of kv.2)) entries).
Proof.
  exists (queryString entries). split; [|apply parseQuery_queryString].
  rewrite !requestInit_url. unfold urlInWords. simpl.
  rewrite append_nil_r. reflexivity.
Qed.
